(** * dkarchiver: searching archive members by name or by content predicate

    A shallow embedding of [dkarchiver/search_in_archive.py] together with
    the detector [zips.is_zip_zipfile] it relies on, and the properties of
    the search engine that the specification states about it.

    Python strings are modelled as Rocq byte strings ([str.lower] is the
    ASCII case mapping), [bytes] as strings as well, dictionaries as
    [gmap string _] and the found-set as a [gset string].  The third-party
    readers ([zipfile], [py7zr]) and the mime sniffer are not part of the
    repository: a file object carries what those libraries report about it. *)

From Stdlib Require Import ZArith Ascii String List Bool Lia DecimalString DecimalNat.
From stdpp Require Import base option list strings gmap sets.

Local Open Scope string_scope.
Local Open Scope Z_scope.

(** ** Python strings *)

Module PyStr.

  (** [c.lower()] on one ASCII character. *)
Definition lower_ascii (c : ascii) : ascii :=
    let n := N_of_ascii c in
    if ((65 <=? n)%N && (n <=? 90)%N)%bool then ascii_of_N (n + 32) else c.

  (** [s.lower()] *)
Fixpoint lower (s : string) : string :=
    match s with
    | EmptyString => EmptyString
    | String c s' => String (lower_ascii c) (lower s')
    end.

  (** [s.endswith(suffix)]: the last [len(suffix)] characters of [s] are
      [suffix]; false when [suffix] is longer than [s]. *)
Definition endswith (s suffix : string) : bool :=
    let n := String.length s in
    let m := String.length suffix in
    (m <=? n)%nat && String.eqb (substring (n - m) m s) suffix.

  (** Truth value of a string: [bool(s)]. *)
Definition truthy (s : string) : bool :=
    match s with EmptyString => false | _ => true end.

  (** [sep in s] for a one-character separator. *)
Fixpoint contains_char (c : ascii) (s : string) : bool :=
    match s with
    | EmptyString => false
    | String d s' => Ascii.eqb c d || contains_char c s'
    end.

  (** Index just after the last occurrence of [c] in [s] ([0] if none):
      [s.rfind(c) + 1]. *)
Fixpoint after_last (c : ascii) (s : string) : nat :=
    match s with
    | EmptyString => 0%nat
    | String d s' =>
        if contains_char c s' then S (after_last c s')
        else if Ascii.eqb c d then 1%nat else 0%nat
    end.

Definition drop (n : nat) (s : string) : string :=
    substring n (String.length s - n) s.

Definition take (n : nat) (s : string) : string := substring 0 n s.

End PyStr.

(** ** The function under study: [_match_file_name] *)

Definition _match_file_name (target current : string) (case_sensitive : bool) : bool :=
  if case_sensitive then PyStr.endswith current target
  else PyStr.endswith (PyStr.lower current) (PyStr.lower target).

Example match_nested : _match_file_name "file.txt" "a/b/file.txt" true = true.
Proof. reflexivity. Qed.

(** ** Archives as the readers expose them

    A [blob] is a byte source (a path on disk or a [bytes] object) together
    with what the collaborators report about it: the mime type returned by
    [file_types.get_mime_type], and what [zipfile] / [py7zr] see in it.
    [ZipArchive l] means that [zipfile.ZipFile] opens it with member list
    [l] (so [zips.is_zip_zipfile] is true); [SevenZArchive l] means that it
    is not a zip, carries the 7z signature and [py7zr] lists [l];
    [NotArchive] means neither detector accepts it.  Members carry their
    own content, so nesting is finite by construction. *)

Definition bytes := string.
Definition date_tuple : Type := Z * Z * Z * Z * Z * Z.

Inductive blob : Type :=
| Blob (data : bytes) (mime : string) (view : archive_view)
with archive_view : Type :=
| NotArchive
| ZipArchive (infolist : list ZipInfo)
| SevenZArchive (listing : list FileInfo)
with ZipInfo : Type :=
| mkZipInfo (filename : string) (file_size : Z) (date_time : date_tuple)
            (content : blob)
with FileInfo : Type :=
| mkFileInfo (filename : string) (uncompressed : Z) (creationtime : option Z)
             (is_directory : bool) (content : blob).

Definition blob_data (b : blob) : bytes := let 'Blob d _ _ := b in d.
Definition blob_mime (b : blob) : string := let 'Blob _ m _ := b in m.
Definition blob_view (b : blob) : archive_view := let 'Blob _ _ v := b in v.

Definition zi_filename (z : ZipInfo) : string := let 'mkZipInfo n _ _ _ := z in n.
Definition zi_file_size (z : ZipInfo) : Z := let 'mkZipInfo _ s _ _ := z in s.
Definition zi_date_time (z : ZipInfo) : date_tuple := let 'mkZipInfo _ _ d _ := z in d.
Definition zi_content (z : ZipInfo) : blob := let 'mkZipInfo _ _ _ c := z in c.

Definition fi_filename (f : FileInfo) : string := let 'mkFileInfo n _ _ _ _ := f in n.
Definition fi_uncompressed (f : FileInfo) : Z := let 'mkFileInfo _ s _ _ _ := f in s.
Definition fi_creationtime (f : FileInfo) : option Z := let 'mkFileInfo _ _ t _ _ := f in t.
Definition fi_is_directory (f : FileInfo) : bool := let 'mkFileInfo _ _ _ d _ := f in d.
Definition fi_content (f : FileInfo) : blob := let 'mkFileInfo _ _ _ _ c := f in c.

(** The loop variable [item] is duck-typed in the source: a
    [zipfile.ZipInfo] or a [py7zr.FileInfo].  Both have [filename]; the
    other attributes exist on one of the two only, and reading a missing
    one raises [AttributeError]. *)
Inductive item : Type :=
| ZipItem (z : ZipInfo)
| SevenZItem (f : FileInfo).

Module Attr.
Definition filename (it : item) : string :=
    match it with ZipItem z => zi_filename z | SevenZItem f => fi_filename f end.
Definition file_size (it : item) : option Z :=
    match it with ZipItem z => Some (zi_file_size z) | SevenZItem _ => None end.
Definition date_time (it : item) : option date_tuple :=
    match it with ZipItem z => Some (zi_date_time z) | SevenZItem _ => None end.
Definition uncompressed (it : item) : option Z :=
    match it with ZipItem _ => None | SevenZItem f => Some (fi_uncompressed f) end.
Definition creationtime (it : item) : option (option Z) :=
    match it with ZipItem _ => None | SevenZItem f => Some (fi_creationtime f) end.
Definition is_directory (it : item) : option bool :=
    match it with ZipItem _ => None | SevenZItem f => Some (fi_is_directory f) end.
End Attr.

Definition item_content (it : item) : blob :=
  match it with ZipItem z => zi_content z | SevenZItem f => fi_content f end.

(** The two archive type tags, ['zip'] and ['7z']. *)
Inductive archive_type : Type := zip | sevenz.

(** ** Python values returned by callbacks, and result entries *)

Inductive pyval : Type :=
| PyNone
| PyBool (b : bool)
| PyInt (z : Z)
| PyStr (s : string)
| PyBytes (b : bytes).

Definition truthy (v : pyval) : bool :=
  match v with
  | PyNone => false
  | PyBool b => b
  | PyInt z => negb (z =? 0)
  | PyStr s => PyStr.truthy s
  | PyBytes b => PyStr.truthy b
  end.

(** A callback: a Python callable on the member bytes.  [cb_class] is
    [callback.__self__.__class__.__name__] when the callable is a bound
    method, [cb_name] is [callback.__name__]. *)
Record callback : Type := mkCallback {
  cb_class : option string;
  cb_name : string;
  cb_call : bytes -> pyval
}.

Inductive mtime : Type :=
| DateTuple (t : date_tuple)
| CreationTime (t : option Z).

(** The [file_info] dictionary built on a match. *)
Record file_info : Type := mkFileRecord {
  rec_bytes : bytes;
  rec_name : string;
  rec_size : Z;
  rec_modified_time : mtime
}.

(** A value of the [results] dictionary: a list of records (name
    matching), or a dictionary with the keys ['files'] and
    ['callable_result'] (callback matching). *)
Inductive entry : Type :=
| NameEntry (files : list file_info)
| CallbackEntry (files : list file_info) (callable_result : option pyval).

Inductive exn : Type :=
| ValueError
| UnknownArchiveType
| AttributeError
| TypeError
| KeyError
| BadZipFile
| Bad7zFile.

(** What the engine does to its collaborators, in order. *)
Inductive event : Type :=
| EvMime (data : bytes)
| EvOpen (data : bytes)
| EvRead (name : string)
| EvCall (callback_name : string) (data : bytes)
| EvWrite (path : string) (data : bytes)
| EvReset
| EvClose (data : bytes).

(** ** State and the exception monad

    [results] and [found_set] are the two objects shared by reference
    through the recursion; [trace] and [disk] are the outside world.
    A raised exception leaves the state as it was when it was raised. *)

Record state : Type := mkState {
  results : gmap string entry;
  found_set : gset string;
  trace : list event;
  disk : gset string
}.

Inductive outcome (A : Type) : Type :=
| Return (a : A)
| Raise (e : exn).
Arguments Return {A} a.
Arguments Raise {A} e.

Definition M (A : Type) : Type := state -> outcome A * state.

Definition ret {A} (a : A) : M A := fun st => (Return a, st).
Definition raise {A} (e : exn) : M A := fun st => (Raise e, st).
Definition bind {A B} (m : M A) (k : A -> M B) : M B :=
  fun st => match m st with
            | (Return a, st') => k a st'
            | (Raise e, st') => (Raise e, st')
            end.

#[global] Instance M_ret : MRet M := @ret.
#[global] Instance M_bind : MBind M := fun A B k m => bind m k.

Definition get_results : M (gmap string entry) := fun st => (Return (results st), st).
Definition set_results (r : gmap string entry) : M unit :=
  fun st => (Return tt, mkState r (found_set st) (trace st) (disk st)).
Definition get_found_set : M (gset string) := fun st => (Return (found_set st), st).
Definition found_set_add (x : string) : M unit :=
  fun st => (Return tt, mkState (results st) ({[x]} ∪ found_set st) (trace st) (disk st)).
Definition emit (e : event) : M unit :=
  fun st => (Return tt, mkState (results st) (found_set st) (trace st ++ [e]) (disk st)).
Definition get_disk : M (gset string) := fun st => (Return (disk st), st).
Definition disk_add (p : string) : M unit :=
  fun st => (Return tt, mkState (results st) (found_set st) (trace st) ({[p]} ∪ disk st)).

(** Reading an attribute that may be missing. *)
Definition getattr {A} (o : option A) : M A :=
  match o with Some a => ret a | None => raise AttributeError end.

(** [try: ... finally: fin]: [fin] runs on both exits. *)
Definition finally {A} (m : M A) (fin : M unit) : M A :=
  fun st => match m st with
            | (Return a, st') =>
                match fin st' with
                | (Return _, st'') => (Return a, st'')
                | (Raise e, st'') => (Raise e, st'')
                end
            | (Raise e, st') =>
                match fin st' with
                | (Return _, st'') => (Raise e, st'')
                | (Raise e', st'') => (Raise e', st'')
                end
            end.

(** ** [os.path] on POSIX paths, as used by the extraction sink *)

Module OsPath.
Definition sep : ascii := "/"%char.
Definition extsep : ascii := "."%char.

Definition basename (p : string) : string :=
    PyStr.drop (PyStr.after_last sep p) p.

Definition join (a b : string) : string :=
    match b with
    | String c _ =>
        if Ascii.eqb c sep then b
        else if negb (PyStr.truthy a) || PyStr.endswith a "/" then a +:+ b
        else a +:+ "/" +:+ b
    | EmptyString =>
        if negb (PyStr.truthy a) || PyStr.endswith a "/" then a else a +:+ "/"
    end.

Fixpoint all_dots (s : string) : bool :=
    match s with
    | EmptyString => true
    | String c s' => Ascii.eqb c extsep && all_dots s'
    end.

  (** [splitext]: split at the last dot of the last component, unless that
      component has only dots before it. *)
Definition splitext (p : string) : string * string :=
    let a := PyStr.after_last sep p in
    let d := PyStr.after_last extsep p in
    if (a <? d)%nat && negb (all_dots (substring a (d - 1 - a) p))
    then (PyStr.take (d - 1) p, PyStr.drop (d - 1) p)
    else (p, EmptyString).
End OsPath.

Definition str_of_nat (n : nat) : string :=
  DecimalString.NilZero.string_of_uint (Nat.to_uint n).

(** The [while os.path.exists(...)] loop of [_get_unique_filename].  Each
    round tries a new candidate, so it ends within [size disk + 1] rounds;
    [fuel] is that bound. *)
Fixpoint unique_filename_loop (fuel : nat) (disk : gset string)
    (directory name ext : string) (counter : nat) (unique_filename : string) : string :=
  match fuel with
  | O => unique_filename
  | S fuel' =>
      if decide (OsPath.join directory unique_filename ∈ disk)
      then unique_filename_loop fuel' disk directory name ext (S counter)
             (name +:+ "_" +:+ str_of_nat counter +:+ ext)
      else unique_filename
  end.

Definition _get_unique_filename (disk : gset string) (directory filename : string) : string :=
  let '(name, ext) := OsPath.splitext filename in
  unique_filename_loop (S (size disk)) disk directory name ext 1 filename.

Definition _handle_file_extraction (it : item) (extract_file_to_path : option string)
    (archived_file_bytes : bytes) : M unit :=
  match extract_file_to_path with
  | Some dir =>
      if PyStr.truthy dir then
        d ← get_disk;
        let unique_filename :=
          _get_unique_filename d dir (OsPath.basename (Attr.filename it)) in
        let path := OsPath.join dir unique_filename in
        emit (EvWrite path archived_file_bytes);;
        disk_add path
      else mret tt
  | None => mret tt
  end.

(** ** Callback and name matching *)

Definition _get_callback_name (cb : callback) : string :=
  match cb_class cb with
  | Some class_name =>
      if PyStr.truthy class_name then class_name +:+ "." +:+ cb_name cb
      else cb_name cb
  | None => cb_name cb
  end.

(** [results[key]] *)
Definition getitem (key : string) : M entry :=
  r ← get_results;
  match r !! key with
  | Some e => mret e
  | None => raise KeyError
  end.

Definition setitem (key : string) (e : entry) : M unit :=
  r ← get_results; set_results (<[key := e]> r).

(** [if key not in results: results[key] = init] *)
Definition setdefault (key : string) (init : entry) : M unit :=
  r ← get_results;
  if decide (is_Some (r !! key)) then mret tt else set_results (<[key := init]> r).

(** [results[key]['files'].append(info)]: subscripting a list with a string
    is a [TypeError]. *)
Definition files_append (key : string) (info : file_info) : M unit :=
  e ← getitem key;
  match e with
  | CallbackEntry files cr => setitem key (CallbackEntry (files ++ [info]) cr)
  | NameEntry _ => raise TypeError
  end.

(** [results[key]['callable_result'] = v] *)
Definition set_callable_result (key : string) (v : pyval) : M unit :=
  e ← getitem key;
  match e with
  | CallbackEntry files _ => setitem key (CallbackEntry files (Some v))
  | NameEntry _ => raise TypeError
  end.

(** [results[key].append(info)]: a dictionary has no [append]. *)
Definition list_append (key : string) (info : file_info) : M unit :=
  e ← getitem key;
  match e with
  | NameEntry files => setitem key (NameEntry (files ++ [info]))
  | CallbackEntry _ _ => raise AttributeError
  end.

Definition zip_file_info (it : item) (archived_file_bytes : bytes) : M file_info :=
  size ← getattr (Attr.file_size it);
  modified ← getattr (Attr.date_time it);
  mret (mkFileRecord archived_file_bytes (Attr.filename it) size (DateTuple modified)).

Definition sevenz_file_info (it : item) (archived_file_bytes : bytes) : M file_info :=
  size ← getattr (Attr.uncompressed it);
  modified ← getattr (Attr.creationtime it);
  mret (mkFileRecord archived_file_bytes (Attr.filename it) size (CreationTime modified)).

(** The [else: raise UnknownArchiveType] branch of the source is the case
    of a tag other than ['zip'] and ['7z'], which [archive_type] excludes. *)
Fixpoint _handle_callback_matching (it : item) (atype : archive_type)
    (archived_file_bytes : bytes) (callback_functions : list callback)
    (return_first_only : bool) : M bool :=
  match callback_functions with
  | [] => mret false
  | cb :: rest =>
      emit (EvCall (_get_callback_name cb) archived_file_bytes);;
      let callback_result := cb_call cb archived_file_bytes in
      if truthy callback_result then
        setdefault (_get_callback_name cb) (CallbackEntry [] None);;
        info ← match atype with
                | zip => zip_file_info it archived_file_bytes
                | sevenz => sevenz_file_info it archived_file_bytes
                end;
        files_append (_get_callback_name cb) info;;
        set_callable_result (_get_callback_name cb) callback_result;;
        (if return_first_only then found_set_add (Attr.filename it) else mret tt);;
        mret true
      else _handle_callback_matching it atype archived_file_bytes rest return_first_only
  end.

Definition _handle_name_matching (it : item) (archived_file_bytes : bytes)
    (file_names : list string) (case_sensitive : bool) (return_first_only : bool) : M unit :=
  if existsb (fun file_name => _match_file_name file_name (Attr.filename it) case_sensitive)
       file_names
  then
    setdefault (Attr.filename it) (NameEntry []);;
    info ← zip_file_info it archived_file_bytes;
    list_append (Attr.filename it) info;;
    (if return_first_only then found_set_add (Attr.filename it) else mret tt)
  else mret tt.

(** ** Format detection *)

Definition SUPPORTED_ARCHIVE_MIMES : list string :=
  [ "application/x-7z-compressed";
    "application/zip";
    "application/x-dosexec";
    "application/octet-stream";
    "application/vnd.microsoft.portable-executable" ].

(** [zips.is_zip_zipfile]: true unless [zipfile.ZipFile] raises
    [BadZipFile]. *)
Definition is_zip_zipfile (file_object : blob) : bool :=
  match blob_view file_object with ZipArchive _ => true | _ => false end.

(** [sevenzs.is_7z_magic_number]: the 7z signature check (module not in
    the sources; its verdict is part of the blob). *)
Definition is_7z_magic_number (file_object : blob) : bool :=
  match blob_view file_object with SevenZArchive _ => true | _ => false end.

(** [file_types.get_mime_type] (helper not in the sources). *)
Definition get_mime_type (file_object : blob) : M string :=
  emit (EvMime (blob_data file_object));;
  mret (blob_mime file_object).

Definition _get_archive_type (file_object : blob) : M (option archive_type) :=
  file_mime ← get_mime_type file_object;
  if negb (bool_decide (file_mime ∈ SUPPORTED_ARCHIVE_MIMES)) then mret None
  else if is_zip_zipfile file_object then mret (Some zip)
  else if is_7z_magic_number file_object then mret (Some sevenz)
  else raise UnknownArchiveType.

(** ** The traversal *)

(** The parameters that [_search_in_archive] and [_search_archive_content]
    pass along unchanged. *)
Record query : Type := mkQuery {
  file_names : option (list string);
  case_sensitive : bool;
  return_first_only : bool;
  recursive : bool;
  callback_functions : option (list callback);
  extract_file_to_path : option string
}.

(** Truth value of an optional list: [None] and [[]] are false. *)
Definition nonempty {A} (o : option (list A)) : bool :=
  match o with Some (_ :: _) => true | _ => false end.

Definition or_nil {A} (o : option (list A)) : list A :=
  match o with Some l => l | None => [] end.

(** [_read_7z_member_bytes]: both the legacy [read] path and the
    [extract(targets, factory)] path hand back the member's bytes and
    reset the reader in a [finally]. *)
Definition _read_7z_member_bytes (f : item) (name : string) : M bytes :=
  finally (emit (EvRead name);; mret (blob_data (item_content f))) (emit EvReset).

(** Outcome of the first part of one loop round: [None] is [continue]
    (a directory), otherwise the member's bytes. *)
Definition read_member (atype : archive_type) (it : item) : M (option bytes) :=
  match atype with
  | zip =>
      if PyStr.endswith (Attr.filename it) "/" then mret None
      else emit (EvRead (Attr.filename it));;
           mret (Some (blob_data (item_content it)))
  | sevenz =>
      d ← getattr (Attr.is_directory it);
      if (d : bool) then mret None
      else b ← _read_7z_member_bytes it (Attr.filename it); mret (Some b)
  end.

(** One round of the [for] loop of [_search_in_archive]; the result is
    [true] when the round ends in [break].  [descend] is the call of
    [_search_archive_content] on the member's bytes. *)
Definition loop_round (descend : M unit) (atype : archive_type) (q : query)
    (it : item) : M bool :=
  rd ← read_member atype it;
  match rd with
  | None => mret false
  | Some archived_file_bytes =>
      callback_matched ←
        (if nonempty (callback_functions q)
         then _handle_callback_matching it atype archived_file_bytes
                (or_nil (callback_functions q)) (return_first_only q)
         else mret false);
      (if (callback_matched : bool)
       then _handle_file_extraction it (extract_file_to_path q) archived_file_bytes
       else
         (if recursive q
             && (is_zip_zipfile (item_content it) || is_7z_magic_number (item_content it))
          then descend else mret tt);;
         (if nonempty (file_names q) && negb callback_matched
          then _handle_name_matching it archived_file_bytes (or_nil (file_names q))
                 (case_sensitive q) (return_first_only q)
          else mret tt));;
      fs ← get_found_set;
      match file_names q with
      | Some names => mret (bool_decide (size fs = length names))
      | None => mret false
      end
  end.

(** The [for ... : ... break] loop. *)
Definition for_each {I : Type} (round : I -> M bool) : list I -> M unit :=
  fix loop (items : list I) : M unit :=
    match items with
    | [] => mret tt
    | it :: rest =>
        stop ← round it;
        if (stop : bool) then mret tt else loop rest
    end.

(** The open reader handed to [_search_in_archive]. *)
Inductive arch_obj : Type :=
| ZipFile (infolist : list ZipInfo)
| SevenZipFile (listing : list FileInfo).

(** [_search_in_archive]: the member list is [arch_obj.infolist()] for the
    tag ['zip'] and [arch_obj.list()] for ['7z']; a reader of the other
    kind has no such method.  [descend] is [_search_archive_content] with
    the arguments that are passed along. *)
Definition _search_in_archive (descend : blob -> M unit) (arch : arch_obj)
    (atype : archive_type) (q : query) : M unit :=
  match atype, arch with
  | zip, ZipFile infolist =>
      for_each (fun z => loop_round (descend (zi_content z)) zip q (ZipItem z)) infolist
  | sevenz, SevenZipFile listing =>
      for_each (fun f => loop_round (descend (fi_content f)) sevenz q (SevenZItem f)) listing
  | zip, SevenZipFile _ => raise AttributeError
  | sevenz, ZipFile _ => raise AttributeError
  end.

(** [with Reader(file_object) as archive_ref: body] *)
Definition with_open (file_object : blob) (body : M unit) : M unit :=
  emit (EvOpen (blob_data file_object));;
  finally body (emit (EvClose (blob_data file_object))).

(** [_search_archive_content].  The [str] and [bytes] branches of the
    source make the same calls; a tag that disagrees with what the reader
    finds cannot come out of [_get_archive_type] and is the reader's
    error. *)
Fixpoint _search_archive_content (file_object : blob) (q : query) {struct file_object}
    : M unit :=
  atype ← _get_archive_type file_object;
  match atype with
  | Some zip =>
      match file_object with
      | Blob _ _ (ZipArchive infolist) =>
          with_open file_object
            (_search_in_archive (fun b => _search_archive_content b q) (ZipFile infolist) zip q)
      | _ => raise BadZipFile
      end
  | Some sevenz =>
      match file_object with
      | Blob _ _ (SevenZArchive listing) =>
          with_open file_object
            (_search_in_archive (fun b => _search_archive_content b q) (SevenZipFile listing) sevenz q)
      | _ => raise Bad7zFile
      end
  | None => mret tt
  end.

(** Truth value of a [results] value: an empty list is false, a dictionary
    holding the key ['files'] is true. *)
Definition entry_truthy (e : entry) : bool :=
  match e with
  | NameEntry files => match files with [] => false | _ => true end
  | CallbackEntry _ _ => true
  end.

Definition init_state (on_disk : gset string) : state := mkState ∅ ∅ [] on_disk.

(** [search_file_in_archive]: the public operation.  It is run on the
    state in which [results] and [found_set] are the fresh locals of the
    call; [on_disk] is the set of paths that exist when it starts. *)
Definition search_file_in_archive
    (file_object : blob)
    (file_names_to_search : option (list string))
    (case_sensitive return_first_only return_empty_list_per_file_name recursive : bool)
    (callback_functions : option (list callback))
    (extract_file_to_path : option string)
    (on_disk : gset string) : outcome (gmap string entry) * state :=
  match file_names_to_search, callback_functions with
  | None, None => raise ValueError (init_state on_disk)
  | _, _ =>
      (_search_archive_content file_object
         (mkQuery file_names_to_search case_sensitive return_first_only recursive
            callback_functions extract_file_to_path);;
       r ← get_results;
       if negb return_empty_list_per_file_name
       then mret (filter (fun kv => entry_truthy kv.2 = true) r)
       else mret r) (init_state on_disk)
  end.

(** * Properties *)

(** ** Suffix test *)

Section Strings.

Lemma substring_all (s : string) : substring 0 (String.length s) s = s.
  Proof. induction s as [|c s IH]; simpl; [reflexivity | now rewrite IH]. Qed.


Lemma length_app (a b : string) :
    String.length (a +:+ b) = (String.length a + String.length b)%nat.
  Proof. induction a as [|c a IH]; simpl; [reflexivity | now rewrite IH]. Qed.

  (** Cutting a string at position [k] loses nothing. *)
Lemma substring_split (s : string) (k : nat) :
    (k <= String.length s)%nat ->
    s = substring 0 k s +:+ substring k (String.length s - k) s.
  Proof.
    revert k; induction s as [|c s IH]; intros [|k] Hk; simpl in *;
      try reflexivity; try lia.
    - now rewrite substring_all.
    - change (String c s = String c (substring 0 k s +:+ substring k (String.length s - k) s)).
      f_equal. apply IH. lia.
  Qed.







End Strings.


(** ** Running the monad *)

Ltac unfold_m :=
  unfold mbind, M_bind, bind, mret, M_ret, ret, raise, emit, get_results,
    set_results, get_found_set, found_set_add, get_disk, disk_add in *.

Lemma state_eta (st : state) :
  mkState (results st) (found_set st) (trace st) (disk st) = st.
Proof. now destruct st. Qed.

Lemma setdefault_eq (key : string) (init : entry) (st : state) :
  setdefault key init st =
  (Return tt,
   mkState (match results st !! key with
            | Some _ => results st
            | None => <[key := init]> (results st)
            end) (found_set st) (trace st) (disk st)).
Proof.
  unfold setdefault; unfold_m. destruct (results st !! key) eqn:E.
  - rewrite decide_True by eauto. now rewrite state_eta.
  - rewrite decide_False; [reflexivity|]. intros [? ?]; congruence.
Qed.

Lemma getitem_eq (key : string) (st : state) :
  getitem key st =
  match results st !! key with
  | Some e => (Return e, st)
  | None => (Raise KeyError, st)
  end.
Proof. unfold getitem; unfold_m. now destruct (results st !! key). Qed.

Ltac run_m :=
  repeat first
    [ rewrite getitem_eq
    | rewrite lookup_insert_eq
    | progress cbn [results found_set trace disk]
    | progress unfold_m ].

(** The record made for a member, and the tag of the reader it comes
    from. *)
Definition match_record (it : item) (data : bytes) : file_info :=
  match it with
  | ZipItem z =>
      mkFileRecord data (zi_filename z) (zi_file_size z) (DateTuple (zi_date_time z))
  | SevenZItem f =>
      mkFileRecord data (fi_filename f) (fi_uncompressed f) (CreationTime (fi_creationtime f))
  end.

Definition tag_of (it : item) : archive_type :=
  match it with ZipItem _ => zip | SevenZItem _ => sevenz end.

Definition callback_files (o : option entry) : list file_info :=
  match o with Some (CallbackEntry files _) => files | _ => [] end.

Definition name_files (o : option entry) : list file_info :=
  match o with Some (NameEntry files) => files | _ => [] end.

Lemma tagged_file_info (it : item) (data : bytes) (st : state) :
  match tag_of it with
  | zip => zip_file_info it data
  | sevenz => sevenz_file_info it data
  end st = (Return (match_record it data), st).
Proof. now destruct it. Qed.

(** One falsy callback: it is called, and matching goes on with the rest. *)
Lemma callback_falsy_step it atype data cb rest rfo st :
  truthy (cb_call cb data) = false ->
  _handle_callback_matching it atype data (cb :: rest) rfo st =
  _handle_callback_matching it atype data rest rfo
    (mkState (results st) (found_set st)
       (trace st ++ [EvCall (_get_callback_name cb) data]) (disk st)).
Proof. intros H. simpl. unfold_m. now rewrite H. Qed.

(** One truthy callback on a member of the reader's own kind. *)
Lemma callback_truthy_step it data cb rest rfo st :
  truthy (cb_call cb data) = true ->
  (forall files, results st !! _get_callback_name cb <> Some (NameEntry files)) ->
  _handle_callback_matching it (tag_of it) data (cb :: rest) rfo st =
  (Return true,
   mkState
     (<[_get_callback_name cb :=
          CallbackEntry
            (callback_files (results st !! _get_callback_name cb) ++ [match_record it data])
            (Some (cb_call cb data))]> (results st))
     (if rfo then {[Attr.filename it]} ∪ found_set st else found_set st)
     (trace st ++ [EvCall (_get_callback_name cb) data]) (disk st)).
Proof.
  intros Htrue Hshape. cbn [_handle_callback_matching].
  set (key := _get_callback_name cb) in *.
  unfold mbind at 1, M_bind at 1, bind at 1. unfold emit at 1.
  rewrite Htrue.
  unfold mbind at 1, M_bind at 1, bind at 1. rewrite setdefault_eq.
  unfold mbind at 1, M_bind at 1, bind at 1. rewrite tagged_file_info.
  unfold files_append, set_callable_result, setitem.
  unfold mbind, M_bind, bind. rewrite !getitem_eq. cbn [results found_set trace disk].
  destruct (results st !! key) as [[files|files cr]|] eqn:E.
  - now destruct (Hshape files).
  - rewrite E. run_m. rewrite insert_insert_eq. now destruct rfo.
  - run_m. rewrite !insert_insert_eq. now destruct rfo.
Qed.

(** ** Predicate matching *)



Definition always (v : pyval) (name : string) : callback :=
  mkCallback None name (fun _ => v).

Definition sample_member : item :=
  ZipItem (mkZipInfo "m.bin" 2 (2024, 1, 2, 3, 4, 5) (Blob "xy" "text/plain" NotArchive)).


(** ** Name matching *)

Definition name_matches (names : list string) (name : string) (cs : bool) : bool :=
  existsb (fun file_name => _match_file_name file_name name cs) names.

(** A zip member whose name matches: the record goes under the member's
    own name. *)
Lemma name_matching_zip_hit z data names cs rfo st :
  name_matches names (zi_filename z) cs = true ->
  (forall files cr, results st !! zi_filename z <> Some (CallbackEntry files cr)) ->
  _handle_name_matching (ZipItem z) data names cs rfo st =
  (Return tt,
   mkState
     (<[zi_filename z :=
          NameEntry (name_files (results st !! zi_filename z)
                       ++ [match_record (ZipItem z) data])]> (results st))
     (if rfo then {[zi_filename z]} ∪ found_set st else found_set st)
     (trace st) (disk st)).
Proof.
  intros Hm Hshape. unfold _handle_name_matching, name_matches in *.
  cbn [Attr.filename]. rewrite Hm.
  unfold mbind at 1, M_bind at 1, bind at 1. rewrite setdefault_eq.
  unfold zip_file_info, list_append, setitem, getattr. cbn [Attr.file_size Attr.date_time Attr.filename].
  destruct (results st !! zi_filename z) as [[files|files cr]|] eqn:E.
  - run_m. rewrite E. run_m. cbn [name_files match_record]. now destruct rfo.
  - now destruct (Hshape files cr).
  - run_m. rewrite insert_insert_eq. cbn [name_files match_record app]. now destruct rfo.
Qed.

Lemma name_matching_miss it data names cs rfo st :
  name_matches names (Attr.filename it) cs = false ->
  _handle_name_matching it data names cs rfo st = (Return tt, st).
Proof.
  intros Hm. unfold _handle_name_matching, name_matches in *. now rewrite Hm.
Qed.

(** A 7z member whose name matches: the key is created, then reading
    [item.file_size] fails. *)
Lemma name_matching_7z_hit f data names cs rfo st :
  name_matches names (fi_filename f) cs = true ->
  _handle_name_matching (SevenZItem f) data names cs rfo st =
  (Raise AttributeError,
   mkState
     (match results st !! fi_filename f with
      | Some _ => results st
      | None => <[fi_filename f := NameEntry []]> (results st)
      end)
     (found_set st) (trace st) (disk st)).
Proof.
  intros Hm. unfold _handle_name_matching, name_matches in *.
  cbn [Attr.filename]. rewrite Hm.
  unfold mbind at 1, M_bind at 1, bind at 1. rewrite setdefault_eq.
  reflexivity.
Qed.

(** ** Invariants of the traversal

    [preserves P E m]: started in a state satisfying [P], the computation
    [m] ends in a state satisfying [P] (also when it raises), and raises
    only exceptions in [E]. *)

Definition preserves {A} (P : state -> Prop) (E : exn -> Prop) (m : M A) : Prop :=
  forall st, P st -> P (m st).2 /\ forall e, (m st).1 = Raise e -> E e.

Section Preserves.
Context (P : state -> Prop) (E : exn -> Prop).

Lemma preserves_ret {A} (a : A) : preserves P E (mret a).
  Proof. intros st HP. split; [exact HP | discriminate]. Qed.

Lemma preserves_raise {A} (e : exn) : E e -> preserves P E (@raise A e).
  Proof. intros He st HP. split; [exact HP|]. cbn. now intros ? [= <-]. Qed.

Lemma preserves_bind {A B} (m : M A) (k : A -> M B) :
    preserves P E m -> (forall a, preserves P E (k a)) -> preserves P E (m ≫= k).
  Proof.
    intros Hm Hk st HP. unfold mbind, M_bind, bind.
    destruct (Hm st HP) as [HP' HE']. destruct (m st) as [[a|e] st']; cbn in *.
    - exact (Hk a st' HP').
    - split; [exact HP'|]. intros ? [= <-]. now apply HE'.
  Qed.

Lemma preserves_finally {A} (m : M A) (fin : M unit) :
    preserves P E m -> preserves P E fin -> preserves P E (finally m fin).
  Proof.
    intros Hm Hf st HP. unfold finally.
    destruct (Hm st HP) as [HP' HE']. destruct (m st) as [[a|e] st']; cbn in *;
      destruct (Hf st' HP') as [HP'' HE'']; destruct (fin st') as [[[]|e'] st''];
      cbn in *; (split; [exact HP''|]); try discriminate.
    - intros ? [= <-]. now apply HE''.
    - intros ? [= <-]. now apply HE'.
    - intros ? [= <-]. now apply HE''.
  Qed.

Lemma preserves_getattr {A} (o : option A) :
    E AttributeError -> preserves P E (getattr o).
  Proof. intros He. destruct o; [apply preserves_ret | now apply preserves_raise]. Qed.

Lemma preserves_get_results : preserves P E get_results.
  Proof. intros st HP. split; [exact HP | discriminate]. Qed.

Lemma preserves_get_found_set : preserves P E get_found_set.
  Proof. intros st HP. split; [exact HP | discriminate]. Qed.

Lemma preserves_get_disk : preserves P E get_disk.
  Proof. intros st HP. split; [exact HP | discriminate]. Qed.

Lemma preserves_for_each {I} (round : I -> M bool) (items : list I) :
    Forall (fun it => preserves P E (round it)) items ->
    preserves P E (for_each round items).
  Proof.
    induction 1 as [|it rest Hit _ IH]; cbn [for_each].
    - apply preserves_ret.
    - apply preserves_bind; [exact Hit|]. intros [|]; [apply preserves_ret | exact IH].
  Qed.
End Preserves.

Create HintDb pres.
#[local] Hint Resolve preserves_ret preserves_get_results preserves_get_found_set
  preserves_get_disk : pres.

Ltac pres_step :=
  match goal with
  | |- preserves _ _ (mbind _ _) => apply preserves_bind; [|intros ?]
  | |- preserves _ _ (mret _) => apply preserves_ret
  | |- preserves _ _ (raise _) => apply preserves_raise
  | |- preserves _ _ (finally _ _) => apply preserves_finally
  | |- preserves _ _ (getattr _) => apply preserves_getattr
  | |- preserves _ _ (if ?b then _ else _) => destruct b
  | |- preserves _ _ (match ?x with _ => _ end) => destruct x
  end.

Ltac pres := repeat pres_step; eauto with pres.

(** Induction on a blob through the members of the archive it holds. *)
Section BlobInduction.
Context (Q : blob -> Prop).
Hypothesis Hplain : forall d m, Q (Blob d m NotArchive).
Hypothesis Hzip : forall d m infolist,
      Forall (fun z => Q (zi_content z)) infolist -> Q (Blob d m (ZipArchive infolist)).
Hypothesis H7z : forall d m listing,
      Forall (fun f => Q (fi_content f)) listing -> Q (Blob d m (SevenZArchive listing)).

Fixpoint blob_nested_ind (b : blob) : Q b :=
    match b with
    | Blob d m v =>
        match v with
        | NotArchive => Hplain d m
        | ZipArchive infolist =>
            Hzip d m infolist
              ((fix members (l : list ZipInfo) : Forall (fun z => Q (zi_content z)) l :=
                  match l as l0 return Forall _ l0 with
                  | [] => @List.Forall_nil _ _
                  | z :: l' =>
                      @List.Forall_cons _ _ z l'
                        (match z as z0 return Q (zi_content z0) with
                         | mkZipInfo _ _ _ c => blob_nested_ind c
                         end) (members l')
                  end) infolist)
        | SevenZArchive listing =>
            H7z d m listing
              ((fix members (l : list FileInfo) : Forall (fun f => Q (fi_content f)) l :=
                  match l as l0 return Forall _ l0 with
                  | [] => @List.Forall_nil _ _
                  | f :: l' =>
                      @List.Forall_cons _ _ f l'
                        (match f as f0 return Q (fi_content f0) with
                         | mkFileInfo _ _ _ _ c => blob_nested_ind c
                         end) (members l')
                  end) listing)
        end
    end.
End BlobInduction.

Section TraversalInvariant.
Context (P : state -> Prop) (E : exn -> Prop) (q : query).
Hypothesis P_emit : forall e, preserves P E (emit e).
Hypothesis P_disk : forall p, preserves P E (disk_add p).
Hypothesis E_attribute : E AttributeError.
Hypothesis E_unknown : E UnknownArchiveType.
Hypothesis E_badzip : E BadZipFile.
Hypothesis E_bad7z : E Bad7zFile.
Hypothesis P_callbacks : forall it atype data,
      preserves P E
        (_handle_callback_matching it atype data (or_nil (callback_functions q))
           (return_first_only q)).
Hypothesis P_names : forall it data,
      preserves P E
        (_handle_name_matching it data (or_nil (file_names q)) (case_sensitive q)
           (return_first_only q)).

Lemma preserves_read_member atype it : preserves P E (read_member atype it).
  Proof. unfold read_member, _read_7z_member_bytes. pres. Qed.

Lemma preserves_extraction it data :
    preserves P E (_handle_file_extraction it (extract_file_to_path q) data).
  Proof. unfold _handle_file_extraction. pres. Qed.

Lemma preserves_loop_round descend atype it :
    preserves P E descend -> preserves P E (loop_round descend atype q it).
  Proof.
    intros Hd. unfold loop_round.
    apply preserves_bind; [apply preserves_read_member|]. intros [data|]; [|pres].
    apply preserves_bind.
    { destruct (nonempty (callback_functions q)); [apply P_callbacks | pres]. }
    intros matched. apply preserves_bind.
    { destruct matched; [apply preserves_extraction|].
      apply preserves_bind; [pres|]. intros _.
      destruct (nonempty (file_names q) && negb false); [apply P_names | pres]. }
    intros _. pres.
  Qed.

Lemma preserves_get_archive_type b : preserves P E (_get_archive_type b).
  Proof. unfold _get_archive_type, get_mime_type. pres. Qed.

Lemma preserves_with_open b body :
    preserves P E body -> preserves P E (with_open b body).
  Proof. intros Hb. unfold with_open. pres. Qed.

Lemma search_archive_content_unfold b :
    _search_archive_content b q =
    (atype ← _get_archive_type b;
     match atype with
     | Some zip =>
         match b with
         | Blob _ _ (ZipArchive infolist) =>
             with_open b
               (_search_in_archive (fun c => _search_archive_content c q) (ZipFile infolist) zip q)
         | _ => raise BadZipFile
         end
     | Some sevenz =>
         match b with
         | Blob _ _ (SevenZArchive listing) =>
             with_open b
               (_search_in_archive (fun c => _search_archive_content c q) (SevenZipFile listing) sevenz q)
         | _ => raise Bad7zFile
         end
     | None => mret tt
     end).
  Proof. now destruct b. Qed.

Theorem preserves_search_archive_content b :
    preserves P E (_search_archive_content b q).
  Proof.
    induction b as [d m|d m infolist IH|d m listing IH] using blob_nested_ind;
      rewrite search_archive_content_unfold;
      (apply preserves_bind; [apply preserves_get_archive_type|]);
      intros [[|]|]; try (pres; fail).
    - apply preserves_with_open, preserves_for_each.
      eapply Forall_impl; [exact IH|]. intros z Hz. now apply preserves_loop_round.
    - apply preserves_with_open, preserves_for_each.
      eapply Forall_impl; [exact IH|]. intros f Hf. now apply preserves_loop_round.
  Qed.
End TraversalInvariant.

(** Invariants that do not look at the contents of [results] are kept by
    the two handlers as soon as the primitive updates keep them. *)
Section HandlerInvariant.
Context (P : state -> Prop) (E : exn -> Prop) (rfo : bool).
Hypothesis P_emit : forall e, preserves P E (emit e).
Hypothesis P_set_results : forall r, preserves P E (set_results r).
Hypothesis P_found_add : rfo = true -> forall x, preserves P E (found_set_add x).
Hypothesis E_attribute : E AttributeError.
Hypothesis E_type : E TypeError.
Hypothesis E_key : E KeyError.

Lemma preserves_setdefault key init : preserves P E (setdefault key init).
  Proof. unfold setdefault. pres. Qed.

Lemma preserves_getitem key : preserves P E (getitem key).
  Proof. unfold getitem. pres. Qed.

Lemma preserves_setitem key e : preserves P E (setitem key e).
  Proof. unfold setitem. pres. Qed.

Lemma preserves_mark_found x :
    preserves P E (if rfo then found_set_add x else mret tt).
  Proof. destruct rfo eqn:R; [now apply P_found_add | apply preserves_ret]. Qed.

Lemma preserves_callback_matching it atype data cbs :
    preserves P E (_handle_callback_matching it atype data cbs rfo).
  Proof.
    induction cbs as [|cb rest IH]; cbn [_handle_callback_matching]; [pres|].
    apply preserves_bind; [apply P_emit|]. intros _.
    destruct (truthy (cb_call cb data)); [|exact IH].
    apply preserves_bind; [apply preserves_setdefault|]. intros _.
    apply preserves_bind.
    { destruct atype; unfold zip_file_info, sevenz_file_info; pres. }
    intros info. apply preserves_bind.
    { unfold files_append. apply preserves_bind; [apply preserves_getitem|].
      intros [?|? ?]; [pres | apply preserves_setitem]. }
    intros _. apply preserves_bind.
    { unfold set_callable_result. apply preserves_bind; [apply preserves_getitem|].
      intros [?|? ?]; [pres | apply preserves_setitem]. }
    intros _. apply preserves_bind; [apply preserves_mark_found | intros _; pres].
  Qed.

Lemma preserves_name_matching it data names cs :
    preserves P E (_handle_name_matching it data names cs rfo).
  Proof.
    unfold _handle_name_matching.
    destruct (existsb _ names); [|pres].
    apply preserves_bind; [apply preserves_setdefault|]. intros _.
    apply preserves_bind; [unfold zip_file_info; pres|]. intros info.
    apply preserves_bind; [|intros _; apply preserves_mark_found].
    unfold list_append. apply preserves_bind; [apply preserves_getitem|].
    intros [?|? ?]; [apply preserves_setitem | pres].
  Qed.
End HandlerInvariant.

(** *** The traversal never raises [ValueError] *)

Lemma search_archive_content_no_ValueError b q st :
  (_search_archive_content b q st).1 <> Raise ValueError.
Proof.
  assert (Hany : forall A (m : M A),
             (forall st0, (m st0).1 <> Raise ValueError) ->
             preserves (fun _ => True) (fun e => e <> ValueError) m).
  { intros A m Hm st0 _. split; [exact I|]. intros e He ->. exact (Hm st0 He). }
  assert (Hprim : forall e, preserves (fun _ => True) (fun e => e <> ValueError) (emit e))
    by (intros; apply Hany; discriminate).
  intros Hraise.
  refine (proj2 (preserves_search_archive_content (fun _ => True) (fun e => e <> ValueError)
                   q Hprim _ _ _ _ _ _ _ b st I) ValueError Hraise eq_refl);
    try discriminate.
  - intros; apply Hany; discriminate.
  - intros. apply preserves_callback_matching;
      try discriminate; intros; apply Hany; discriminate.
  - intros. apply preserves_name_matching;
      try discriminate; intros; apply Hany; discriminate.
Qed.

(** *** Without [return_first_only] the found-set is never written *)



(** ** The public operation: configuration check and format detection *)

Definition plain (d : bytes) : blob := Blob d "text/plain" NotArchive.

Definition zfile (name : string) (d : bytes) : ZipInfo :=
  mkZipInfo name (Z.of_nat (String.length d)) (2024, 1, 2, 3, 4, 5) (plain d).

Definition zip_of (d : bytes) (members : list ZipInfo) : blob :=
  Blob d "application/zip" (ZipArchive members).

Definition sfile (name : string) (d : bytes) : FileInfo :=
  mkFileInfo name (Z.of_nat (String.length d)) (Some 1704164645) false (plain d).

Definition sevenz_of (d : bytes) (members : list FileInfo) : blob :=
  Blob d "application/x-7z-compressed" (SevenZArchive members).

(** The member names read, in order. *)
Definition reads (t : list event) : list string :=
  omap (fun e => match e with EvRead n => Some n | _ => None end) t.

Lemma search_outcome_not_ValueError fo names cs rfo re rc cbs ex on_disk :
  ~ (names = None /\ cbs = None) ->
  (search_file_in_archive fo names cs rfo re rc cbs ex on_disk).1 <> Raise ValueError.
Proof.
  intros Hsome.
  assert (Hrun : forall q st,
             ((_search_archive_content fo q;;
               r ← get_results;
               if negb re then mret (filter (fun kv => entry_truthy kv.2 = true) r)
               else mret r) st).1 <> Raise ValueError).
  { intros q st. unfold mbind, M_bind, bind.
    pose proof (search_archive_content_no_ValueError fo q st) as Hno.
    destruct (_search_archive_content fo q st) as [[[]|e] st']; cbn in *.
    - now destruct re.
    - congruence. }
  unfold search_file_in_archive. destruct names, cbs; try apply Hrun.
  now destruct Hsome.
Qed.

(** C6 (amended). The configuration error is raised exactly when both
    [file_names_to_search] and [callback_functions] are absent ([None]),
    and then nothing has been done yet: the state is the initial one, with
    an empty trace.  Lists that are supplied but empty do not raise it. *)
Theorem config_error_iff_both_absent :
  forall fo names cs rfo re rc cbs ex on_disk,
    ((search_file_in_archive fo names cs rfo re rc cbs ex on_disk).1 = Raise ValueError
     <-> names = None /\ cbs = None) /\
    (search_file_in_archive fo names cs rfo re rc cbs ex on_disk
       = (Raise ValueError, init_state on_disk)
     <-> names = None /\ cbs = None).
Proof.
  intros. assert (Hback : names = None /\ cbs = None ->
    search_file_in_archive fo names cs rfo re rc cbs ex on_disk
      = (Raise ValueError, init_state on_disk)) by now intros [-> ->].
  assert (Hforw : (search_file_in_archive fo names cs rfo re rc cbs ex on_disk).1
                    = Raise ValueError -> names = None /\ cbs = None).
  { intros Hr. destruct names as [names|], cbs as [cbs|]; try (split; reflexivity);
      exfalso; revert Hr; apply search_outcome_not_ValueError; intros [? ?]; discriminate. }
  split; split; auto.
  - intros H. now rewrite (Hback H).
  - intros H. apply Hforw. now rewrite H.
Qed.

(** C6 as stated fails: with both lists supplied but empty there is no
    configuration error; the source is probed and opened and the search
    returns an empty result. *)
Lemma config_error_empty_lists_counterexample :
  let r := search_file_in_archive (zip_of "PK" [zfile "a.txt" "A"])
             (Some []) true false false false (Some []) None ∅ in
  r.1 = Return ∅ /\
  trace r.2 = [EvMime "PK"; EvOpen "PK"; EvRead "a.txt"; EvClose "PK"].
Proof. vm_compute. split; reflexivity. Qed.

(** C1 (amended). For a source that neither detector accepts, and with
    search criteria supplied: when its mime type is one of the supported
    archive mime types the search raises [UnknownArchiveType]; when it is
    not, the search completes and returns an empty result. *)
Theorem unknown_format_outcome :
  forall d m names cs rfo re rc cbs ex on_disk,
    ~ (names = None /\ cbs = None) ->
    (search_file_in_archive (Blob d m NotArchive) names cs rfo re rc cbs ex on_disk).1 =
    if bool_decide (m ∈ SUPPORTED_ARCHIVE_MIMES)
    then Raise UnknownArchiveType else Return ∅.
Proof.
  intros d m names cs rfo re rc cbs ex on_disk Hsome.
  assert (Hrun : forall q st,
             ((_search_archive_content (Blob d m NotArchive) q;;
               r ← get_results;
               if negb re then mret (filter (fun kv => entry_truthy kv.2 = true) r)
               else mret r) (init_state st)).1 =
             if bool_decide (m ∈ SUPPORTED_ARCHIVE_MIMES)
             then Raise UnknownArchiveType else Return ∅).
  { intros q st. cbn [_search_archive_content].
    unfold _get_archive_type, get_mime_type, is_zip_zipfile, is_7z_magic_number.
    cbn [blob_view blob_mime blob_data]. unfold_m. cbn.
    destruct (bool_decide (m ∈ SUPPORTED_ARCHIVE_MIMES)); cbn; [reflexivity|].
    destruct re; cbn; [reflexivity|]. now rewrite map_filter_empty. }
  unfold search_file_in_archive. destruct names, cbs; try apply Hrun.
  now destruct Hsome.
Qed.

Lemma unknown_format_outcome_witness :
  (search_file_in_archive (Blob "hello" "application/octet-stream" NotArchive)
     (Some ["a.txt"]) true false false false None None ∅).1 =
  if bool_decide ("application/octet-stream" ∈ SUPPORTED_ARCHIVE_MIMES)
  then Raise UnknownArchiveType else Return ∅.
Proof.
  apply (unknown_format_outcome "hello" "application/octet-stream"
           (Some ["a.txt"]) true false false false None None ∅).
  intros [H _]. discriminate H.
Defined.

(** C1 as stated fails: a source that is no archive and whose mime type is
    not in the supported list is not rejected; the search returns an empty
    result after the mime probe. *)
Lemma unknown_format_counterexample :
  let r := search_file_in_archive (plain "hello") (Some ["a.txt"])
             true false false false None None ∅ in
  is_zip_zipfile (plain "hello") = false /\
  is_7z_magic_number (plain "hello") = false /\
  r.1 = Return ∅ /\ trace r.2 = [EvMime "hello"].
Proof. vm_compute. repeat split; reflexivity. Qed.


(** ** Name-based searches on concrete archives *)

Definition stamp : date_tuple := (2024, 1, 2, 3, 4, 5).

Definition zrecord (name : string) (d : bytes) : file_info :=
  mkFileRecord d name (Z.of_nat (String.length d)) (DateTuple stamp).

(** C5. A name match on a member of a 7z archive is not recorded: building
    the record reads [item.file_size], which a [py7zr] member does not
    have, and the search ends in [AttributeError].  The same search on a
    zip archive records the member, and so does a predicate match on the
    7z archive, where the record is built from [uncompressed] and
    [creationtime]. *)
Theorem sevenz_name_match_raises :
  (search_file_in_archive (sevenz_of "7z" [sfile "a.txt" "A"])
     (Some ["a.txt"]) true false false false None None ∅).1
  = Raise AttributeError /\
  (search_file_in_archive (zip_of "PK" [zfile "a.txt" "A"])
     (Some ["a.txt"]) true false false false None None ∅).1
  = Return {[ "a.txt" := NameEntry [zrecord "a.txt" "A"] ]} /\
  (search_file_in_archive (sevenz_of "7z" [sfile "a.txt" "A"])
     None true false false false (Some [always (PyBool true) "cb"]) None ∅).1
  = Return {[ "cb" := CallbackEntry
                        [mkFileRecord "A" "a.txt" 1 (CreationTime (Some 1704164645))]
                        (Some (PyBool true)) ]}.
Proof. repeat split; vm_compute; reflexivity. Qed.

(** C3. With [return_first_only] and the names ["a.txt"] and ["b.txt"], an
    archive holding ["x/a.txt"], ["y/a.txt"] and ["b.txt"] yields two
    records whose names end in ["a.txt"] and none for ["b.txt"]: the
    found-set counts member names, reaches two after the second member,
    and the loop stops before ["b.txt"] is read. *)
Theorem first_only_records_same_suffix_twice :
  let r := search_file_in_archive
             (zip_of "PK" [zfile "x/a.txt" "A1"; zfile "y/a.txt" "A2"; zfile "b.txt" "B"])
             (Some ["a.txt"; "b.txt"]) true true false false None None ∅ in
  r.1 = Return {[ "x/a.txt" := NameEntry [zrecord "x/a.txt" "A1"];
                  "y/a.txt" := NameEntry [zrecord "y/a.txt" "A2"] ]} /\
  found_set r.2 = {[ "x/a.txt"; "y/a.txt" ]} /\
  reads (trace r.2) = ["x/a.txt"; "y/a.txt"].
Proof. repeat split; vm_compute; reflexivity. Qed.

(** C7. When no member matches, the result has no key at all, also with
    [return_empty_list_per_file_name] set: the requested names are never
    entered into [results], so there is no empty list to keep. *)
Theorem no_match_gives_no_keys :
  (search_file_in_archive (zip_of "PK" [zfile "other.bin" "O"])
     (Some ["a.txt"]) true false true false None None ∅).1 = Return ∅ /\
  (search_file_in_archive (zip_of "PK" [zfile "other.bin" "O"])
     (Some ["a.txt"]) true false false false None None ∅).1 = Return ∅.
Proof. repeat split; vm_compute; reflexivity. Qed.

(** ** Keys of a name-based result *)

(** Every key of [results] is a name that matches a requested suffix. *)
Definition keys_match (names : list string) (cs : bool) (st : state) : Prop :=
  forall k e, results st !! k = Some e -> name_matches names k cs = true.

Section KeysMatch.
Context (names : list string) (cs : bool).
Let P := keys_match names cs.
Let E := fun _ : exn => True.





End KeysMatch.




(** ** Early exit *)


(** The loop skips this member ([continue]). *)
Definition is_directory_member (atype : archive_type) (it : item) : bool :=
  match atype with
  | zip => PyStr.endswith (Attr.filename it) "/"
  | sevenz => match Attr.is_directory it with Some d => d | None => false end
  end.









Definition abc_archive : arch_obj :=
  ZipFile [zfile "a.txt" "A"; zfile "b.txt" "B"; zfile "c.txt" "C"].

Definition abc_zip : blob :=
  zip_of "PK" [zfile "a.txt" "A"; zfile "b.txt" "B"; zfile "c.txt" "C"].

Definition names_query (names : list string) (rfo : bool) : query :=
  mkQuery (Some names) true rfo false None None.




(** ** An empty name list *)





(** * Further properties of the traversal *)

Lemma for_each_ext {I} (r1 r2 : I -> M bool) (items : list I) st :
  (forall x s, r1 x s = r2 x s) ->
  for_each r1 items st = for_each r2 items st.
Proof.
  intros Hr. revert st. induction items as [|x items IH]; intros st; [reflexivity|].
  cbn [for_each]. unfold mbind, M_bind, bind. rewrite Hr.
  destruct (r2 x st) as [[[|]|e] s1]; auto.
Qed.

(** X1. Without [recursive], [_search_in_archive] never calls
    [_search_archive_content] on a member: whatever that call would do,
    the run is the same. *)
Theorem nonrecursive_never_descends :
  forall (descend1 descend2 : blob -> M unit) arch atype q st,
    recursive q = false ->
    _search_in_archive descend1 arch atype q st =
    _search_in_archive descend2 arch atype q st.
Proof.
  intros d1 d2 arch atype [names cs rfo rc cbs ex] st Hrec. cbn in Hrec. subst rc.
  destruct atype, arch as [infolist|listing]; cbn [_search_in_archive];
    try reflexivity; apply for_each_ext; intros x s; reflexivity.
Qed.

Lemma nonrecursive_never_descends_witness :
  _search_in_archive (fun _ => raise TypeError) abc_archive zip
    (names_query ["a.txt"] false) (init_state ∅) =
  _search_in_archive (fun c => _search_archive_content c (names_query ["a.txt"] false))
    abc_archive zip (names_query ["a.txt"] false) (init_state ∅).
Proof.
  apply (nonrecursive_never_descends (fun _ => raise TypeError)
           (fun c => _search_archive_content c (names_query ["a.txt"] false))
           abc_archive zip (names_query ["a.txt"] false) (init_state ∅)).
  reflexivity.
Defined.

(** The members of an archive that are not directories, in order. *)
Definition arch_files (arch : arch_obj) : arch_obj :=
  match arch with
  | ZipFile infolist =>
      ZipFile (List.filter (fun z => negb (PyStr.endswith (zi_filename z) "/")) infolist)
  | SevenZipFile listing =>
      SevenZipFile (List.filter (fun f => negb (fi_is_directory f)) listing)
  end.

Lemma for_each_skip {I} (round : I -> M bool) (keep : I -> bool) (items : list I) st :
  (forall x s, keep x = false -> round x s = (Return false, s)) ->
  for_each round items st = for_each round (List.filter keep items) st.
Proof.
  intros Hskip. revert st. induction items as [|x items IH]; intros st; [reflexivity|].
  cbn [List.filter]. destruct (keep x) eqn:Hk; cbn [for_each]; unfold mbind, M_bind, bind.
  - destruct (round x st) as [[[|]|e] s1]; auto.
  - rewrite (Hskip x st Hk). apply IH.
Qed.

(** X2. Directory members are passed over without any effect: they are
    not read, not matched and not tested for the early exit, so the run
    on an archive is the run on its non-directory members. *)
Theorem directories_are_skipped :
  forall descend arch atype q st,
    _search_in_archive descend arch atype q st =
    _search_in_archive descend (arch_files arch) atype q st.
Proof.
  intros descend arch atype q st.
  destruct atype, arch as [infolist|listing]; cbn [_search_in_archive arch_files];
    try reflexivity; apply for_each_skip; intros x s Hx;
    apply negb_false_iff in Hx; unfold loop_round, read_member;
    cbn [Attr.filename Attr.is_directory getattr]; unfold_m; now rewrite Hx.
Qed.

(** X3. The mime type is consulted before any signature: a source whose
    mime type is not in [SUPPORTED_ARCHIVE_MIMES] is not searched, even
    when it is a valid archive.  The search then returns an empty result
    and has done nothing but the mime probe. *)
Theorem unsupported_mime_is_not_searched :
  forall fo names cs rfo re rc cbs ex on_disk,
    blob_mime fo ∉ SUPPORTED_ARCHIVE_MIMES ->
    ~ (names = None /\ cbs = None) ->
    search_file_in_archive fo names cs rfo re rc cbs ex on_disk =
    (Return ∅, mkState ∅ ∅ [EvMime (blob_data fo)] on_disk).
Proof.
  intros fo names cs rfo re rc cbs ex on_disk Hmime Hsome.
  assert (Hrun : forall q,
             (_search_archive_content fo q;;
              r ← get_results;
              if negb re then mret (filter (fun kv => entry_truthy kv.2 = true) r)
              else mret r) (init_state on_disk) =
             (Return ∅, mkState ∅ ∅ [EvMime (blob_data fo)] on_disk)).
  { intros q. rewrite search_archive_content_unfold.
    unfold _get_archive_type, get_mime_type. unfold_m. cbn.
    rewrite bool_decide_eq_false_2 by exact Hmime. cbn.
    destruct re; cbn; [reflexivity|]. now rewrite map_filter_empty. }
  unfold search_file_in_archive. destruct names, cbs; try apply Hrun.
  now destruct Hsome.
Qed.

Lemma unsupported_mime_is_not_searched_witness :
  search_file_in_archive (Blob "PK" "text/plain" (ZipArchive [zfile "a.txt" "A"]))
    (Some ["a.txt"]) true false false false None None ∅ =
  (Return ∅, mkState ∅ ∅ [EvMime "PK"] ∅).
Proof.
  apply (unsupported_mime_is_not_searched
           (Blob "PK" "text/plain" (ZipArchive [zfile "a.txt" "A"]))
           (Some ["a.txt"]) true false false false None None ∅).
  - intros Hin. apply (bool_decide_eq_true_2 _) in Hin. vm_compute in Hin. discriminate Hin.
  - intros [H _]. discriminate H.
Defined.

(** * The extraction sink *)

Section PathStrings.

Lemma string_app_nil_r (a : string) : a +:+ "" = a.
Proof.
  induction a as [|c a IH]; [reflexivity|].
  change (String c (a +:+ "") = String c a). now rewrite IH.
Qed.

Lemma string_app_inv_head (a x y : string) : a +:+ x = a +:+ y -> x = y.
Proof. induction a as [|c a IH]; cbn; [auto|]. intros [= H]. auto. Qed.

Lemma string_app_inj_length (x y u v : string) :
  String.length x = String.length y -> x +:+ u = y +:+ v -> x = y /\ u = v.
Proof.
  revert y. induction x as [|c x IH]; intros [|d y] Hlen H; cbn in *;
    try discriminate Hlen; [auto|].
  injection H as -> H. injection Hlen as Hlen.
  destruct (IH y Hlen H) as [-> ->]. auto.
Qed.

Lemma string_app_inv_tail (x y e : string) : x +:+ e = y +:+ e -> x = y.
Proof.
  intros H. apply (string_app_inj_length x y e e); [|exact H].
  apply (f_equal String.length) in H. rewrite !length_app in H. lia.
Qed.

Lemma str_of_nat_inj (n m : nat) : str_of_nat n = str_of_nat m -> n = m.
Proof.
  unfold str_of_nat. intros H.
  assert (Hnil : forall k, Nat.to_uint k <> Decimal.Nil).
  { intros k Hk. pose proof (DecimalNat.Unsigned.of_to k) as Hof.
    rewrite Hk in Hof. cbn in Hof. subst k. discriminate Hk. }
  apply DecimalNat.Unsigned.to_uint_inj.
  apply (f_equal NilZero.uint_of_string) in H.
  rewrite !NilZero.usu in H by apply Hnil. now injection H.
Qed.

(** [b.startswith('/')] *)
Definition starts_with_sep (b : string) : bool :=
  match b with String c _ => Ascii.eqb c OsPath.sep | EmptyString => false end.

(** The separator [os.path.join] puts after [a]. *)
Definition join_sep (a : string) : string :=
  if negb (PyStr.truthy a) || PyStr.endswith a "/" then "" else "/".

Lemma join_eq (a b : string) :
  OsPath.join a b = if starts_with_sep b then b else a +:+ join_sep a +:+ b.
Proof.
  unfold OsPath.join, join_sep, starts_with_sep.
  destruct b as [|c b].
  - destruct (negb (PyStr.truthy a) || PyStr.endswith a "/"); cbn.
    + symmetry. apply string_app_nil_r.
    + reflexivity.
  - destruct (Ascii.eqb c OsPath.sep); [reflexivity|].
    destruct (negb (PyStr.truthy a) || PyStr.endswith a "/"); reflexivity.
Qed.

Lemma join_inj (a x y : string) :
  starts_with_sep x = starts_with_sep y -> OsPath.join a x = OsPath.join a y -> x = y.
Proof.
  intros Hs. rewrite !join_eq, Hs. destruct (starts_with_sep y); [auto|].
  intros H. now apply string_app_inv_head, string_app_inv_head in H.
Qed.

Lemma starts_with_sep_app (x y : string) :
  x <> EmptyString -> starts_with_sep (x +:+ y) = starts_with_sep x.
Proof. destruct x; [congruence | reflexivity]. Qed.

Lemma substring_length (s : string) (n : nat) :
  (n <= String.length s)%nat -> String.length (substring 0 n s) = n.
Proof.
  revert n. induction s as [|c s IH]; intros [|n] Hn; cbn in *; try lia.
  rewrite IH; lia.
Qed.

Lemma substring_zero (s : string) (n : nat) : substring n 0 s = EmptyString.
Proof. revert n. induction s as [|c s IH]; intros [|n]; cbn; auto. Qed.

Lemma after_last_le (c : ascii) (s : string) :
  (PyStr.after_last c s <= String.length s)%nat.
Proof.
  induction s as [|d s IH]; cbn; [lia|].
  destruct (PyStr.contains_char c s); [lia|]. destruct (Ascii.eqb c d); lia.
Qed.

(** [splitext] cuts the name in two parts, and the first part is empty
    only when the name is. *)
Lemma splitext_app (p : string) :
  (OsPath.splitext p).1 +:+ (OsPath.splitext p).2 = p.
Proof.
  unfold OsPath.splitext.
  destruct ((_ <? _)%nat && _); cbn [fst snd].
  - unfold PyStr.take, PyStr.drop. symmetry. apply substring_split.
    pose proof (after_last_le OsPath.extsep p). lia.
  - apply string_app_nil_r.
Qed.

Lemma splitext_root_empty (p : string) :
  (OsPath.splitext p).1 = EmptyString -> p = EmptyString.
Proof.
  unfold OsPath.splitext.
  destruct ((_ <? _)%nat && _) eqn:Hcut; cbn [fst]; [|auto].
  apply andb_true_iff in Hcut as [Hlt Hdots]. apply Nat.ltb_lt in Hlt.
  intros H. apply (f_equal String.length) in H. unfold PyStr.take in H.
  pose proof (after_last_le OsPath.extsep p).
  rewrite substring_length in H by lia. cbn in H.
  replace (PyStr.after_last OsPath.extsep p - 1 - PyStr.after_last OsPath.sep p)%nat
    with 0%nat in Hdots by lia.
  rewrite substring_zero in Hdots. discriminate Hdots.
Qed.

End PathStrings.

(** The [counter]-th candidate of [_get_unique_filename]. *)
Definition numbered (name ext : string) (counter : nat) : string :=
  name +:+ "_" +:+ str_of_nat counter +:+ ext.

Section UniqueFilename.
Context (on_disk : gset string) (directory filename : string).
Let name := (OsPath.splitext filename).1.
Let ext := (OsPath.splitext filename).2.
Let path (k : nat) : string := OsPath.join directory (numbered name ext k).

Lemma numbered_inj k1 k2 : numbered name ext k1 = numbered name ext k2 -> k1 = k2.
Proof.
  unfold numbered. intros H.
  apply string_app_inv_head, string_app_inv_head, string_app_inv_tail in H.
  now apply str_of_nat_inj.
Qed.

Lemma numbered_starts k1 k2 :
  starts_with_sep (numbered name ext k1) = starts_with_sep (numbered name ext k2).
Proof. unfold numbered. destruct name; reflexivity. Qed.

Lemma path_inj k1 k2 : path k1 = path k2 -> k1 = k2.
Proof.
  intros H. apply numbered_inj. eapply join_inj; [apply numbered_starts | exact H].
Qed.

Lemma path_not_original k : path k <> OsPath.join directory filename.
Proof.
  intros H. apply join_inj in H.
  - pose proof (splitext_app filename) as Happ. fold name ext in Happ.
    rewrite <- Happ in H. unfold numbered in H.
    apply string_app_inv_head in H. apply (f_equal String.length) in H.
    rewrite !length_app in H. cbn in H. lia.
  - unfold numbered. destruct name eqn:Hname.
    + unfold name in Hname. apply splitext_root_empty in Hname. now rewrite Hname.
    + pose proof (splitext_app filename) as Happ. fold name ext in Happ.
      rewrite <- Happ, Hname. reflexivity.
Qed.

(** The loop, started at [counter] with the candidate [unique_filename]
    when the paths in [seen] have been found to exist: it ends on a free
    name, which is the first free one. *)
Lemma unique_filename_loop_spec fuel (seen : gset string) counter unique_filename :
  seen ⊆ on_disk ->
  OsPath.join directory unique_filename ∉ seen ->
  (forall k, (counter <= k)%nat -> path k ∉ seen) ->
  (forall k, (counter <= k)%nat -> path k <> OsPath.join directory unique_filename) ->
  (size on_disk < size seen + fuel)%nat ->
  let r := unique_filename_loop fuel on_disk directory name ext counter unique_filename in
  (OsPath.join directory r ∉ on_disk) /\
  (r = unique_filename \/
   (OsPath.join directory unique_filename ∈ on_disk) /\
   exists k, (counter <= k)%nat /\ r = numbered name ext k /\
             forall j, (counter <= j < k)%nat -> path j ∈ on_disk).
Proof.
  revert seen counter unique_filename.
  induction fuel as [|fuel IH]; intros seen counter u Hsub Hu Hseen Hne Hsize r.
  - apply subseteq_size in Hsub. lia.
  - subst r. cbn [unique_filename_loop]. fold (numbered name ext counter).
    destruct (decide (OsPath.join directory u ∈ on_disk)) as [Hin|Hfree]; [|auto].
    assert (Hnew : path counter ∉ {[OsPath.join directory u]} ∪ seen).
    { intros [Heq%elem_of_singleton|Hs]%elem_of_union.
      - exact (Hne counter (le_n _) Heq).
      - exact (Hseen counter (le_n _) Hs). }
    destruct (IH ({[OsPath.join directory u]} ∪ seen) (S counter) (numbered name ext counter))
      as [Hfresh Hmin].
    + intros x [->%elem_of_singleton|Hs]%elem_of_union; [exact Hin | exact (Hsub x Hs)].
    + exact Hnew.
    + intros k Hk [Heq%elem_of_singleton|Hs]%elem_of_union.
      * apply (Hne k); [lia | exact Heq].
      * apply (Hseen k); [lia | exact Hs].
    + intros k Hk Heq. apply path_inj in Heq. lia.
    + rewrite size_union, size_singleton; [lia|].
      intros x ->%elem_of_singleton Hs. exact (Hu Hs).
    + split; [exact Hfresh|]. right. split; [exact Hin|].
      destruct Hmin as [Hr|(Hc & k & Hk & Hr & Hbelow)]; rewrite Hr.
      * exists counter. repeat split; [lia|]. intros j Hj. lia.
      * exists k. repeat split; [lia|]. intros j Hj.
        destruct (decide (j = counter)) as [->|]; [exact Hc | apply Hbelow; lia].
Qed.

End UniqueFilename.

Lemma unique_filename_fresh (on_disk : gset string) (directory filename : string) :
  OsPath.join directory (_get_unique_filename on_disk directory filename) ∉ on_disk.
Proof.
  unfold _get_unique_filename.
  destruct (OsPath.splitext filename) as [name ext] eqn:Hsplit.
  pose proof (unique_filename_loop_spec on_disk directory filename (S (size on_disk))
                ∅ 1 filename) as H.
  rewrite Hsplit in H. cbn [fst snd] in H. apply H.
  - apply empty_subseteq.
  - apply not_elem_of_empty.
  - intros k _. apply not_elem_of_empty.
  - intros k _. pose proof (path_not_original directory filename k) as Hne.
    rewrite Hsplit in Hne. exact Hne.
  - rewrite size_empty. lia.
Qed.

(** X4. [_get_unique_filename] always returns a name that is free in the
    directory, and the first free one: the file name itself when it is
    free, and otherwise [name_k.ext] for the smallest [k >= 1] such that
    this name is free, [name_1.ext] .. [name_(k-1).ext] and the file name
    itself being taken. *)
Theorem get_unique_filename_is_first_free :
  forall (on_disk : gset string) (directory filename : string),
    let r := _get_unique_filename on_disk directory filename in
    let name := (OsPath.splitext filename).1 in
    let ext := (OsPath.splitext filename).2 in
    (OsPath.join directory r ∉ on_disk) /\
    (r = filename \/
     (OsPath.join directory filename ∈ on_disk) /\
     exists k, (1 <= k)%nat /\ r = numbered name ext k /\
               forall j, (1 <= j < k)%nat ->
                         OsPath.join directory (numbered name ext j) ∈ on_disk).
Proof.
  intros on_disk directory filename. unfold _get_unique_filename.
  destruct (OsPath.splitext filename) as [name ext] eqn:Hsplit. cbn [fst snd].
  pose proof (unique_filename_loop_spec on_disk directory filename (S (size on_disk))
                ∅ 1 filename) as H.
  rewrite Hsplit in H. cbn [fst snd] in H. apply H.
  - apply empty_subseteq.
  - apply not_elem_of_empty.
  - intros k _. apply not_elem_of_empty.
  - intros k _. pose proof (path_not_original directory filename k) as Hne.
    rewrite Hsplit in Hne. exact Hne.
  - rewrite size_empty. lia.
Qed.

(** The path [_handle_file_extraction] writes to. *)
Definition extraction_path (on_disk : gset string) (dir : string) (it : item) : string :=
  OsPath.join dir (_get_unique_filename on_disk dir (OsPath.basename (Attr.filename it))).

Lemma handle_file_extraction_eq it dir data st :
  PyStr.truthy dir = true ->
  _handle_file_extraction it (Some dir) data st =
  (Return tt,
   mkState (results st) (found_set st)
     (trace st ++ [EvWrite (extraction_path (disk st) dir it) data])
     ({[extraction_path (disk st) dir it]} ∪ disk st)).
Proof. intros Hdir. unfold _handle_file_extraction. rewrite Hdir. reflexivity. Qed.



Example extraction_path_numbered :
  extraction_path {["out/m.bin"; "out/m_1.bin"]} "out" sample_member = "out/m_2.bin".
Proof. vm_compute. reflexivity. Qed.



(** * Relational invariants of the traversal

    [rel R X m]: a normal end of [m] relates the state before and the
    state after by [R]; an exception [e] relates them by [X e]. *)

Definition rel {A} (R : state -> state -> Prop) (X : exn -> state -> state -> Prop)
    (m : M A) : Prop :=
  forall st,
    match m st with
    | (Return _, st') => R st st'
    | (Raise e, st') => X e st st'
    end.

Definition add_events (t : list event) (st : state) : state :=
  mkState (results st) (found_set st) (trace st ++ t) (disk st).

(** Every member of the tree of archives under [b] satisfies [good]. *)
Fixpoint members_ok (good : item -> bool) (b : blob) {struct b} : bool :=
  match b with
  | Blob _ _ v =>
      match v with
      | NotArchive => true
      | ZipArchive infolist =>
          (fix members (l : list ZipInfo) : bool :=
             match l with
             | [] => true
             | z :: l' =>
                 good (ZipItem z)
                 && match z with mkZipInfo _ _ _ c => members_ok good c end
                 && members l'
             end) infolist
      | SevenZArchive listing =>
          (fix members (l : list FileInfo) : bool :=
             match l with
             | [] => true
             | f :: l' =>
                 good (SevenZItem f)
                 && match f with mkFileInfo _ _ _ _ c => members_ok good c end
                 && members l'
             end) listing
      end
  end.

(** The top-level source is an archive or is not probed further. *)
Definition searchable (b : blob) : bool :=
  is_zip_zipfile b || is_7z_magic_number b
  || negb (bool_decide (blob_mime b ∈ SUPPORTED_ARCHIVE_MIMES)).

Section Rel.
Context (R : state -> state -> Prop) (X : exn -> state -> state -> Prop).
Hypothesis R_refl : forall st, R st st.
Hypothesis R_trans : forall s1 s2 s3, R s1 s2 -> R s2 s3 -> R s1 s3.
Hypothesis R_X : forall e s1 s2 s3, R s1 s2 -> X e s2 s3 -> X e s1 s3.

Lemma rel_ret {A} (a : A) : rel R X (mret a).
Proof. intros st. apply R_refl. Qed.

Lemma rel_after {A} (m : M A) st st' :
  R st st' -> rel R X m ->
  match m st' with
  | (Return _, st'') => R st st''
  | (Raise e, st'') => X e st st''
  end.
Proof.
  intros HR Hm. specialize (Hm st'). destruct (m st') as [[a|e] st''].
  - eapply R_trans; eassumption.
  - eapply R_X; eassumption.
Qed.

Lemma rel_bind {A B} (m : M A) (k : A -> M B) :
  rel R X m -> (forall a, rel R X (k a)) -> rel R X (m ≫= k).
Proof.
  intros Hm Hk st. unfold mbind, M_bind, bind. specialize (Hm st).
  destruct (m st) as [[a|e] st']; [|exact Hm].
  exact (rel_after (k a) st st' Hm (Hk a)).
Qed.

Lemma rel_for_each {I} (round : I -> M bool) (items : list I) :
  Forall (fun it => rel R X (round it)) items -> rel R X (for_each round items).
Proof.
  induction 1 as [|it rest Hit _ IH]; cbn [for_each].
  - apply rel_ret.
  - apply rel_bind; [exact Hit|]. intros [|]; [apply rel_ret | exact IH].
Qed.

Lemma rel_ret_bind {A B} (a : A) (k : A -> M B) :
  rel R X (k a) -> rel R X (mret a ≫= k).
Proof. intros H st. exact (H st). Qed.

Lemma rel_get_found_set : rel R X get_found_set.
Proof. intros st. apply R_refl. Qed.
End Rel.

(** What [read_member] does on a member of the reader's own kind. *)
Lemma read_member_eq it st :
  read_member (tag_of it) it st =
  if is_directory_member (tag_of it) it then (Return None, st)
  else (Return (Some (blob_data (item_content it))),
        add_events match it with
                   | ZipItem _ => [EvRead (Attr.filename it)]
                   | SevenZItem _ => [EvRead (Attr.filename it); EvReset]
                   end st).
Proof.
  destruct it as [z|f]; cbn [tag_of read_member is_directory_member Attr.is_directory getattr].
  - destruct (PyStr.endswith _ "/"); reflexivity.
  - unfold_m. destruct (fi_is_directory f); [reflexivity|].
    unfold _read_7z_member_bytes, finally, add_events. unfold_m. cbn.
    now rewrite <- app_assoc.
Qed.

(** What [_get_archive_type] does. *)
Lemma get_archive_type_eq b st :
  _get_archive_type b st =
  if bool_decide (blob_mime b ∈ SUPPORTED_ARCHIVE_MIMES) then
    match blob_view b with
    | ZipArchive _ => (Return (Some zip), add_events [EvMime (blob_data b)] st)
    | SevenZArchive _ => (Return (Some sevenz), add_events [EvMime (blob_data b)] st)
    | NotArchive => (Raise UnknownArchiveType, add_events [EvMime (blob_data b)] st)
    end
  else (Return None, add_events [EvMime (blob_data b)] st).
Proof.
  unfold _get_archive_type, get_mime_type, is_zip_zipfile, is_7z_magic_number, add_events.
  unfold_m. cbn. destruct (bool_decide _); cbn; [|reflexivity]. now destruct (blob_view b).
Qed.

(** [with]: the reader is closed on both exits. *)
Lemma with_open_eq b body st :
  with_open b body st =
  match body (add_events [EvOpen (blob_data b)] st) with
  | (Return a, st') => (Return a, add_events [EvClose (blob_data b)] st')
  | (Raise e, st') => (Raise e, add_events [EvClose (blob_data b)] st')
  end.
Proof.
  unfold with_open, finally, add_events. unfold_m.
  now destruct (body _) as [[[]|e] st'].
Qed.

Lemma members_ok_zip good d m infolist :
  members_ok good (Blob d m (ZipArchive infolist)) = true ->
  Forall (fun z => good (ZipItem z) = true /\ members_ok good (zi_content z) = true) infolist.
Proof.
  cbn [members_ok]. induction infolist as [|z l IH]; intros H; [constructor|].
  apply andb_prop in H as [H Hl]. apply andb_prop in H as [Hg Hc].
  constructor; [|exact (IH Hl)]. split; [exact Hg|]. now destruct z.
Qed.

Lemma members_ok_7z good d m listing :
  members_ok good (Blob d m (SevenZArchive listing)) = true ->
  Forall (fun f => good (SevenZItem f) = true /\ members_ok good (fi_content f) = true) listing.
Proof.
  cbn [members_ok]. induction listing as [|f l IH]; intros H; [constructor|].
  apply andb_prop in H as [H Hl]. apply andb_prop in H as [Hg Hc].
  constructor; [|exact (IH Hl)]. split; [exact Hg|]. now destruct f.
Qed.

(** The traversal keeps a relation that each of its steps keeps. *)
Section Traversal.
Context (R : state -> state -> Prop) (X : exn -> state -> state -> Prop).
Context (q : query) (good : item -> bool).
Hypothesis R_refl : forall st, R st st.
Hypothesis R_trans : forall s1 s2 s3, R s1 s2 -> R s2 s3 -> R s1 s3.
Hypothesis R_X : forall e s1 s2 s3, R s1 s2 -> X e s2 s3 -> X e s1 s3.
Hypothesis H_mime : forall d, rel R X (emit (EvMime d)).
Hypothesis H_open : forall b (body : M unit), rel R X body -> rel R X (with_open b body).
Hypothesis H_read : forall it, good it = true -> rel R X (read_member (tag_of it) it).
Hypothesis H_callbacks : nonempty (callback_functions q) = true ->
  forall it data, good it = true -> is_directory_member (tag_of it) it = false ->
    rel R X (_handle_callback_matching it (tag_of it) data (or_nil (callback_functions q))
               (return_first_only q)).
Hypothesis H_extraction : nonempty (callback_functions q) = true ->
  forall it data, good it = true -> is_directory_member (tag_of it) it = false ->
    rel R X (_handle_file_extraction it (extract_file_to_path q) data).
Hypothesis H_names : nonempty (file_names q) = true ->
  forall it data, good it = true -> is_directory_member (tag_of it) it = false ->
    rel R X (_handle_name_matching it data (or_nil (file_names q)) (case_sensitive q)
               (return_first_only q)).

Lemma rel_loop_round descend it :
  good it = true ->
  (recursive q && (is_zip_zipfile (item_content it) || is_7z_magic_number (item_content it))
     = true -> rel R X descend) ->
  rel R X (loop_round descend (tag_of it) q it).
Proof.
  intros Hg Hd. unfold loop_round.
  assert (Hend : rel R X (fs ← get_found_set;
                          match file_names q with
                          | Some names => mret (bool_decide (size fs = length names))
                          | None => mret false
                          end)).
  { apply (rel_bind R X R_trans R_X); [now apply rel_get_found_set|].
    intros fs. destruct (file_names q); apply (rel_ret R X R_refl). }
  intros st. unfold mbind at 1, M_bind at 1, bind at 1.
  pose proof (H_read it Hg st) as Hr. rewrite read_member_eq in *.
  destruct (is_directory_member (tag_of it) it) eqn:Hdir; [exact Hr|].
  apply (rel_after R X R_trans R_X _ st _ Hr). clear Hr st.
  set (data := blob_data (item_content it)).
  assert (Hrest : rel R X
            ((if recursive q
                 && (is_zip_zipfile (item_content it) || is_7z_magic_number (item_content it))
              then descend else mret tt);;
             (if nonempty (file_names q) && negb false
              then _handle_name_matching it data (or_nil (file_names q))
                     (case_sensitive q) (return_first_only q)
              else mret tt))).
  { apply (rel_bind R X R_trans R_X).
    - destruct (recursive q && _) eqn:Hr; [now apply Hd | apply (rel_ret R X R_refl)].
    - intros _. destruct (nonempty (file_names q)) eqn:Hn; cbn [andb negb];
        [now apply H_names | apply (rel_ret R X R_refl)]. }
  destruct (nonempty (callback_functions q)) eqn:Hc.
  - apply (rel_bind R X R_trans R_X); [now apply H_callbacks|]. intros matched.
    apply (rel_bind R X R_trans R_X); [|intros _; exact Hend].
    destruct matched; [now apply H_extraction | apply Hrest].
  - apply rel_ret_bind. apply (rel_bind R X R_trans R_X); [apply Hrest | intros _; exact Hend].
Qed.

Lemma rel_search_in_archive (descend : blob -> M unit) arch :
  match arch with
  | ZipFile infolist =>
      Forall (fun z => good (ZipItem z) = true /\
                       ((is_zip_zipfile (zi_content z) || is_7z_magic_number (zi_content z)) = true ->
                        rel R X (descend (zi_content z)))) infolist
  | SevenZipFile listing =>
      Forall (fun f => good (SevenZItem f) = true /\
                       ((is_zip_zipfile (fi_content f) || is_7z_magic_number (fi_content f)) = true ->
                        rel R X (descend (fi_content f)))) listing
  end ->
  rel R X (_search_in_archive descend arch
             match arch with ZipFile _ => zip | SevenZipFile _ => sevenz end q).
Proof.
  destruct arch as [infolist|listing]; cbn [_search_in_archive]; intros H;
    apply (rel_for_each R X R_refl R_trans R_X); (eapply Forall_impl; [exact H|]);
    intros x [Hg Hd]; cbn beta.
  - apply (rel_loop_round _ (ZipItem x)); [exact Hg|].
    intros Hr. apply andb_prop in Hr as [_ Hr]. exact (Hd Hr).
  - apply (rel_loop_round _ (SevenZItem x)); [exact Hg|].
    intros Hr. apply andb_prop in Hr as [_ Hr]. exact (Hd Hr).
Qed.

(** A source that is an archive, or whose mime type is not supported. *)
Lemma rel_search_archive_content_nested b :
  members_ok good b = true ->
  searchable b = true ->
  rel R X (_search_archive_content b q).
Proof.
  induction b as [d m|d m infolist IH|d m listing IH] using blob_nested_ind;
    intros Hok Htop st; rewrite search_archive_content_unfold;
    unfold mbind, M_bind, bind; rewrite get_archive_type_eq;
    pose proof (H_mime d st) as Hm; change (emit (EvMime d) st)
      with (Return tt, add_events [EvMime d] st) in Hm; cbn iota in Hm;
    cbn [blob_mime blob_view blob_data] in *;
    destruct (bool_decide (m ∈ SUPPORTED_ARCHIVE_MIMES)) eqn:Hmime; try exact Hm.
  - unfold searchable in Htop. cbn in Htop. rewrite Hmime in Htop. discriminate.
  - apply (rel_after R X R_trans R_X _ st _ Hm). apply H_open.
    apply (rel_search_in_archive _ (ZipFile infolist)).
    apply members_ok_zip in Hok. rewrite Forall_forall in *.
    intros z Hz. destruct (Hok z Hz) as [Hg Hc]. split; [exact Hg|].
    intros Hr. apply (IH z Hz Hc). unfold searchable. now rewrite Hr.
  - apply (rel_after R X R_trans R_X _ st _ Hm). apply H_open.
    apply (rel_search_in_archive _ (SevenZipFile listing)).
    apply members_ok_7z in Hok. rewrite Forall_forall in *.
    intros f Hf. destruct (Hok f Hf) as [Hg Hc]. split; [exact Hg|].
    intros Hr. apply (IH f Hf Hc). unfold searchable. now rewrite Hr.
Qed.

(** Any source, when the relation allows [UnknownArchiveType]. *)
Lemma rel_search_archive_content b :
  members_ok good b = true ->
  (forall st st', R st st' -> X UnknownArchiveType st st') ->
  rel R X (_search_archive_content b q).
Proof.
  intros Hok Hx. destruct (searchable b) eqn:Htop;
    [now apply rel_search_archive_content_nested|].
  intros st. rewrite search_archive_content_unfold.
  unfold mbind, M_bind, bind. rewrite get_archive_type_eq.
  pose proof (H_mime (blob_data b) st) as Hm.
  change (emit (EvMime (blob_data b)) st)
    with (Return tt, add_events [EvMime (blob_data b)] st) in Hm; cbn iota in Hm.
  unfold searchable, is_zip_zipfile, is_7z_magic_number in Htop.
  destruct (bool_decide _); [|now rewrite orb_true_r in Htop].
  destruct (blob_view b); try discriminate. now apply Hx.
Qed.
End Traversal.

(** The two handlers keep a relation that the primitive updates keep,
    when the relation allows any exception. *)
Section HandlerRel.
Context (R : state -> state -> Prop) (X : exn -> state -> state -> Prop) (rfo : bool).
Hypothesis R_refl : forall st, R st st.
Hypothesis R_trans : forall s1 s2 s3, R s1 s2 -> R s2 s3 -> R s1 s3.
Hypothesis R_X : forall e s1 s2 s3, R s1 s2 -> X e s2 s3 -> X e s1 s3.
Hypothesis X_any : forall e st st', R st st' -> X e st st'.
Hypothesis H_call : forall n d, rel R X (emit (EvCall n d)).
Hypothesis H_set : forall r, rel R X (set_results r).
Hypothesis H_found : forall x, rel R X (found_set_add x).

Lemma rel_raise {A} (e : exn) : rel R X (@raise A e).
Proof. intros st. apply X_any, R_refl. Qed.

Ltac rel_step :=
  lazymatch goal with
  | |- rel _ _ (mbind _ _) => apply (rel_bind R X R_trans R_X); [|intros ?]
  | |- rel _ _ (mret _) => apply (rel_ret R X R_refl)
  | |- rel _ _ (raise _) => apply rel_raise
  | |- rel _ _ get_results => intros ?; apply R_refl
  | |- rel _ _ (set_results _) => apply H_set
  | |- rel _ _ (found_set_add _) => apply H_found
  | |- rel _ _ (emit (EvCall _ _)) => apply H_call
  | |- rel _ _ (if ?b then _ else _) => destruct b
  | |- rel _ _ (match ?x with _ => _ end) => destruct x
  end.

Lemma rel_getattr {A} (o : option A) : rel R X (getattr o).
Proof. destruct o; [apply (rel_ret R X R_refl) | apply rel_raise]. Qed.

Lemma rel_setdefault key init : rel R X (setdefault key init).
Proof. unfold setdefault. repeat rel_step. Qed.

Lemma rel_getitem key : rel R X (getitem key).
Proof. unfold getitem. repeat rel_step. Qed.

Lemma rel_setitem key e : rel R X (setitem key e).
Proof. unfold setitem. repeat rel_step. Qed.

Lemma rel_callback_matching it atype data cbs :
  rel R X (_handle_callback_matching it atype data cbs rfo).
Proof.
  induction cbs as [|cb rest IH]; cbn [_handle_callback_matching]; [rel_step|].
  apply (rel_bind R X R_trans R_X); [apply H_call|]. intros _.
  destruct (truthy (cb_call cb data)); [|exact IH].
  apply (rel_bind R X R_trans R_X); [apply rel_setdefault|]. intros _.
  apply (rel_bind R X R_trans R_X).
  { destruct atype; unfold zip_file_info, sevenz_file_info;
      repeat first [apply rel_getattr | rel_step]. }
  intros info. apply (rel_bind R X R_trans R_X).
  { unfold files_append. apply (rel_bind R X R_trans R_X); [apply rel_getitem|].
    intros [?|? ?]; [rel_step | apply rel_setitem]. }
  intros _. apply (rel_bind R X R_trans R_X).
  { unfold set_callable_result. apply (rel_bind R X R_trans R_X); [apply rel_getitem|].
    intros [?|? ?]; [rel_step | apply rel_setitem]. }
  intros _. repeat rel_step.
Qed.

Lemma rel_name_matching it data names cs :
  rel R X (_handle_name_matching it data names cs rfo).
Proof.
  unfold _handle_name_matching.
  destruct (existsb _ names); [|rel_step].
  apply (rel_bind R X R_trans R_X); [apply rel_setdefault|]. intros _.
  apply (rel_bind R X R_trans R_X).
  { unfold zip_file_info; repeat first [apply rel_getattr | rel_step]. }
  intros info. apply (rel_bind R X R_trans R_X); [|intros _; repeat rel_step].
  unfold list_append. apply (rel_bind R X R_trans R_X); [apply rel_getitem|].
  intros [?|? ?]; [apply rel_setitem | rel_step].
Qed.
End HandlerRel.

(** ** What a search does to the outside world

    The events a computation adds to the trace, and the paths it writes. *)

Definition write_paths (t : list event) : list string :=
  omap (fun e => match e with EvWrite p _ => Some p | _ => None end) t.

(** [trace_rel T st st']: from [st] to [st'] the trace grew by events [t]
    satisfying [T]; the disk grew by exactly the paths written in [t],
    which are pairwise distinct and did not exist in [st]. *)
Definition trace_rel (T : list event -> Prop) (st st' : state) : Prop :=
  exists t : list event, trace st' = (trace st ++ t)%list /\ T t /\
    disk st' = list_to_set (write_paths t) ∪ disk st /\
    NoDup (write_paths t) /\ (forall p, p ∈ write_paths t -> p ∉ disk st).

Lemma members_ok_always b : members_ok (fun _ => true) b = true.
Proof.
  induction b as [d m|d m infolist IH|d m listing IH] using blob_nested_ind;
    [reflexivity| |]; cbn [members_ok].
  - induction IH as [|z l Hz _ IHl]; [reflexivity|].
    destruct z; cbn [zi_content] in Hz. simpl. now rewrite Hz.
  - induction IH as [|f l Hf _ IHl]; [reflexivity|].
    destruct f; cbn [fi_content] in Hf. simpl. now rewrite Hf.
Qed.

(** The state in which [search_file_in_archive] ends is the one in which
    the traversal ends. *)
Lemma search_file_in_archive_state fo names cs rfo re rc cbs ex d :
  (search_file_in_archive fo names cs rfo re rc cbs ex d).2 =
  match names, cbs with
  | None, None => init_state d
  | _, _ => (_search_archive_content fo (mkQuery names cs rfo rc cbs ex) (init_state d)).2
  end.
Proof.
  unfold search_file_in_archive.
  destruct names, cbs; try reflexivity; unfold mbind, M_bind, bind;
    destruct (_search_archive_content _ _ _) as [[[]|e] st']; try reflexivity;
    destruct re; reflexivity.
Qed.

Section TraceRel.
Context (T : list event -> Prop) (q : query).
Hypothesis T_nil : T [].
Hypothesis T_app : forall t1 t2 : list event, T t1 -> T t2 -> T (t1 ++ t2)%list.
Hypothesis T_mime : forall d, T [EvMime d].
Hypothesis T_read : forall n, T [EvRead n].
Hypothesis T_reset : T [EvReset].
Hypothesis T_open : forall d (t : list event), T t -> T (EvOpen d :: t ++ [EvClose d])%list.
Hypothesis T_call : nonempty (callback_functions q) = true -> forall n d, T [EvCall n d].
Hypothesis T_write : nonempty (callback_functions q) = true -> forall p d, T [EvWrite p d].

Lemma trace_rel_refl st : trace_rel T st st.
Proof.
  exists []. rewrite app_nil_r. cbn. repeat split; auto.
  - now rewrite union_empty_l_L.
  - constructor.
  - intros p Hp. now apply elem_of_nil in Hp.
Qed.

Lemma trace_rel_trans s1 s2 s3 : trace_rel T s1 s2 -> trace_rel T s2 s3 -> trace_rel T s1 s3.
Proof.
  intros (t1 & Ht1 & HT1 & Hd1 & Hn1 & Hf1) (t2 & Ht2 & HT2 & Hd2 & Hn2 & Hf2).
  exists (t1 ++ t2)%list. unfold write_paths in *. rewrite omap_app.
  repeat split.
  - now rewrite Ht2, Ht1, app_assoc.
  - now apply T_app.
  - rewrite Hd2, Hd1, list_to_set_app_L.
    rewrite (union_comm_L (list_to_set _) (list_to_set _)). now rewrite union_assoc_L.
  - apply NoDup_app. repeat split; [exact Hn1| |exact Hn2].
    intros p Hp1 Hp2. apply (Hf2 p Hp2). rewrite Hd1.
    apply elem_of_union_l. now apply elem_of_list_to_set.
  - intros p Hp. apply elem_of_app in Hp as [Hp|Hp]; [now apply Hf1|].
    intros Hd. apply (Hf2 p Hp). rewrite Hd1. now apply elem_of_union_r.
Qed.

(** Events other than writes. *)
Lemma trace_rel_events t st :
  T t -> write_paths t = [] -> trace_rel T st (add_events t st).
Proof.
  intros HT Hw. exists t. rewrite Hw. cbn. repeat split; auto.
  - now rewrite union_empty_l_L.
  - constructor.
  - intros p Hp. now apply elem_of_nil in Hp.
Qed.

Lemma trace_rel_quiet {A} (m : M A) :
  (forall st, trace (m st).2 = trace st /\ disk (m st).2 = disk st) ->
  rel (trace_rel T) (fun _ => trace_rel T) m.
Proof.
  intros Hm st. destruct (Hm st) as [Ht Hd].
  assert (H : trace_rel T st (m st).2).
  { exists []. rewrite app_nil_r. cbn. repeat split; auto.
    - now rewrite union_empty_l_L.
    - constructor.
    - intros p Hp. now apply elem_of_nil in Hp. }
  now destruct (m st) as [[a|e] st'].
Qed.

Lemma trace_rel_with_open b (body : M unit) :
  rel (trace_rel T) (fun _ => trace_rel T) body ->
  rel (trace_rel T) (fun _ => trace_rel T) (with_open b body).
Proof.
  intros Hb st. rewrite with_open_eq.
  specialize (Hb (add_events [EvOpen (blob_data b)] st)).
  assert (H : forall st', trace_rel T (add_events [EvOpen (blob_data b)] st) st' ->
                          trace_rel T st (add_events [EvClose (blob_data b)] st')).
  { intros st' (t & Ht & HT & Hd & Hn & Hf). cbn in Ht, Hd, Hf.
    exists (EvOpen (blob_data b) :: t ++ [EvClose (blob_data b)]).
    assert (Hw : write_paths (EvOpen (blob_data b) :: t ++ [EvClose (blob_data b)])
                 = write_paths t).
    { unfold write_paths. cbn [omap list_omap]. rewrite omap_app. cbn. apply app_nil_r. }
    rewrite Hw. cbn [add_events trace disk]. repeat split; auto.
    rewrite Ht, <- !app_assoc. reflexivity. }
  destruct (body _) as [[[]|e] st']; now apply H.
Qed.

Lemma trace_rel_extraction it data :
  nonempty (callback_functions q) = true ->
  rel (trace_rel T) (fun _ => trace_rel T)
    (_handle_file_extraction it (extract_file_to_path q) data).
Proof.
  intros Hc st. destruct (extract_file_to_path q) as [dir|]; [|apply trace_rel_refl].
  destruct (PyStr.truthy dir) eqn:Hdir.
  - rewrite handle_file_extraction_eq by exact Hdir.
    exists [EvWrite (extraction_path (disk st) dir it) data]. cbn. repeat split.
    + now apply T_write.
    + now rewrite union_empty_r_L.
    + apply NoDup_singleton.
    + intros p Hp. apply list_elem_of_singleton in Hp as ->.
      apply unique_filename_fresh.
  - unfold _handle_file_extraction. rewrite Hdir. apply trace_rel_refl.
Qed.

Theorem trace_rel_search_archive_content b st :
  trace_rel T st (_search_archive_content b q st).2.
Proof.
  assert (Hrel : rel (trace_rel T) (fun _ => trace_rel T) (_search_archive_content b q)).
  { apply (rel_search_archive_content (trace_rel T) (fun _ => trace_rel T) q (fun _ => true)).
    - exact trace_rel_refl.
    - exact trace_rel_trans.
    - intros _. exact trace_rel_trans.
    - intros d st0. now apply (trace_rel_events [EvMime d]).
    - exact trace_rel_with_open.
    - intros it _ st0. rewrite read_member_eq.
      destruct (is_directory_member _ _); [apply trace_rel_refl|].
      apply trace_rel_events; destruct it; try reflexivity; auto.
      apply (T_app [_] [_]); auto.
    - intros Hc it data _ _.
      apply rel_callback_matching.
      + exact trace_rel_refl.
      + exact trace_rel_trans.
      + intros _. exact trace_rel_trans.
      + auto.
      + intros n d st0. now apply (trace_rel_events [EvCall n d]); [apply T_call|].
      + intros r. now apply trace_rel_quiet.
      + intros x. now apply trace_rel_quiet.
    - intros Hc it data _ _. now apply trace_rel_extraction.
    - intros Hn it data _ _.
      apply rel_name_matching.
      + exact trace_rel_refl.
      + exact trace_rel_trans.
      + intros _. exact trace_rel_trans.
      + auto.
      + intros r. now apply trace_rel_quiet.
      + intros x. now apply trace_rel_quiet.
    - apply members_ok_always.
    - auto. }
  specialize (Hrel st). now destruct (_search_archive_content b q st) as [[a|e] st'].
Qed.
End TraceRel.

(** The whole operation, from the fresh state of a call. *)
Lemma trace_rel_search_file_in_archive (T : list event -> Prop)
    fo names cs rfo re rc cbs ex on_disk :
  T [] ->
  (forall t1 t2 : list event, T t1 -> T t2 -> T (t1 ++ t2)%list) ->
  (forall d, T [EvMime d]) ->
  (forall n, T [EvRead n]) ->
  T [EvReset] ->
  (forall d (t : list event), T t -> T (EvOpen d :: t ++ [EvClose d])%list) ->
  (nonempty cbs = true -> forall n d, T [EvCall n d]) ->
  (nonempty cbs = true -> forall p d, T [EvWrite p d]) ->
  let st' := (search_file_in_archive fo names cs rfo re rc cbs ex on_disk).2 in
  T (trace st') /\
  disk st' = list_to_set (write_paths (trace st')) ∪ on_disk /\
  NoDup (write_paths (trace st')) /\
  (forall p, p ∈ write_paths (trace st') -> p ∉ on_disk).
Proof.
  intros Hnil Happ Hmime Hread Hreset Hopen Hcall Hwrite st'. subst st'.
  rewrite search_file_in_archive_state.
  assert (Hinit : trace_rel T (init_state on_disk) (init_state on_disk))
    by now apply trace_rel_refl.
  assert (Hrun : trace_rel T (init_state on_disk)
                   (_search_archive_content fo (mkQuery names cs rfo rc cbs ex)
                      (init_state on_disk)).2)
    by now apply trace_rel_search_archive_content.
  assert (Hgoal : forall st', trace_rel T (init_state on_disk) st' ->
            T (trace st') /\
            disk st' = list_to_set (write_paths (trace st')) ∪ on_disk /\
            NoDup (write_paths (trace st')) /\
            (forall p, p ∈ write_paths (trace st') -> p ∉ on_disk)).
  { intros st' (t & Ht & HT & Hd & Hn & Hf). cbn in Ht, Hd, Hf. now rewrite Ht. }
  destruct names, cbs; now apply Hgoal.
Qed.

(** ** Readers are closed in the reverse order of their opening *)

(** The stack of open readers after the events [t], or [None] when a
    close does not match the reader opened last. *)
Fixpoint open_readers (t : list event) (stack : list bytes) : option (list bytes) :=
  match t with
  | [] => Some stack
  | EvOpen d :: t' => open_readers t' (d :: stack)
  | EvClose d :: t' =>
      match stack with
      | d' :: stack' => if String.eqb d d' then open_readers t' stack' else None
      | [] => None
      end
  | _ :: t' => open_readers t' stack
  end.

Lemma open_readers_app (t1 t2 : list event) stack :
  open_readers (t1 ++ t2) stack =
  match open_readers t1 stack with
  | Some stack' => open_readers t2 stack'
  | None => None
  end.
Proof.
  revert stack. induction t1 as [|e t1 IH]; intros stack; [reflexivity|].
  destruct e; cbn [app open_readers]; auto.
  destruct stack as [|d' stack']; [reflexivity|]. now destruct (String.eqb data d').
Qed.

(** X7. Whatever the arguments, and whether the search returns or raises,
    every archive reader that was opened has been closed when
    [search_file_in_archive] ends, and readers are closed in the reverse
    order of their opening (a nested archive's reader before its
    parent's). *)
Theorem readers_closed_in_order :
  forall fo names cs rfo re rc cbs ex on_disk,
    open_readers (trace (search_file_in_archive fo names cs rfo re rc cbs ex on_disk).2) []
    = Some [].
Proof.
  intros fo names cs rfo re rc cbs ex on_disk.
  apply (trace_rel_search_file_in_archive
           (fun t => forall stack, open_readers t stack = Some stack)
           fo names cs rfo re rc cbs ex on_disk); try reflexivity.
  - intros t1 t2 H1 H2 stack. now rewrite open_readers_app, H1, H2.
  - intros d t Ht stack. cbn [open_readers]. rewrite open_readers_app, Ht.
    cbn [open_readers]. now rewrite String.eqb_refl.
Qed.

(** ** Without predicates nothing is written *)

Definition is_write_or_call (e : event) : bool :=
  match e with EvWrite _ _ | EvCall _ _ => true | _ => false end.

Lemma write_paths_quiet (t : list event) :
  forallb (fun e => negb (is_write_or_call e)) t = true -> write_paths t = [].
Proof.
  induction t as [|e t IH]; [reflexivity|]. cbn [forallb]. intros H.
  apply andb_prop in H as [He Ht]. unfold write_paths in *. cbn [omap list_omap].
  destruct e; try discriminate; now apply IH.
Qed.

(** X8. Extraction belongs to predicate matching only: when no predicate
    is supplied ([callback_functions] is [None] or empty), a search writes
    no file and calls nothing, whatever [extract_file_to_path] is and
    however many names match; the disk is as it was. *)
Theorem name_search_never_extracts :
  forall fo names cs rfo re rc cbs ex on_disk,
    nonempty cbs = false ->
    let st' := (search_file_in_archive fo names cs rfo re rc cbs ex on_disk).2 in
    disk st' = on_disk /\
    forallb (fun e => negb (is_write_or_call e)) (trace st') = true.
Proof.
  intros fo names cs rfo re rc cbs ex on_disk Hc st'.
  destruct (trace_rel_search_file_in_archive
              (fun t => forallb (fun e => negb (is_write_or_call e)) t = true)
              fo names cs rfo re rc cbs ex on_disk) as (HT & Hd & _);
    try reflexivity; try (rewrite Hc; discriminate).
  - intros t1 t2 H1 H2. rewrite forallb_app. now rewrite H1, H2.
  - intros d t Ht. cbn [forallb is_write_or_call negb andb].
    rewrite forallb_app, Ht. reflexivity.
  - fold st' in HT, Hd. split; [|exact HT].
    rewrite Hd, (write_paths_quiet _ HT). cbn. now rewrite union_empty_l_L.
Qed.

Lemma name_search_never_extracts_witness :
  disk (search_file_in_archive abc_zip (Some ["a.txt"]) true false false false None
          (Some "out") ∅).2 = ∅ /\
  forallb (fun e => negb (is_write_or_call e))
    (trace (search_file_in_archive abc_zip (Some ["a.txt"]) true false false false None
              (Some "out") ∅).2) = true.
Proof.
  apply (name_search_never_extracts abc_zip (Some ["a.txt"]) true false false false None
           (Some "out") ∅).
  reflexivity.
Defined.

(** ** A search never overwrites a file *)

(** X9. Over a whole search, nested archives included, the paths written
    by extraction are pairwise distinct and none of them existed when the
    search started; when the search ends (normally or not) the disk holds
    exactly the files it held before and the written ones. *)
Theorem search_never_overwrites :
  forall fo names cs rfo re rc cbs ex on_disk,
    let st' := (search_file_in_archive fo names cs rfo re rc cbs ex on_disk).2 in
    NoDup (write_paths (trace st')) /\
    (forall p, p ∈ write_paths (trace st') -> p ∉ on_disk) /\
    disk st' = list_to_set (write_paths (trace st')) ∪ on_disk.
Proof.
  intros fo names cs rfo re rc cbs ex on_disk st'.
  destruct (trace_rel_search_file_in_archive (fun _ => True)
              fo names cs rfo re rc cbs ex on_disk) as (_ & Hd & Hn & Hf); auto.
Qed.

(** ** Invariants of the result set *)

(** A matching zip member whose name is already the key of a predicate
    entry: [list.append] is looked up on a dictionary. *)
Lemma name_matching_zip_clash z data names cs rfo st files cr :
  name_matches names (zi_filename z) cs = true ->
  results st !! zi_filename z = Some (CallbackEntry files cr) ->
  _handle_name_matching (ZipItem z) data names cs rfo st = (Raise AttributeError, st).
Proof.
  intros Hm Hk. unfold _handle_name_matching, name_matches in *.
  cbn [Attr.filename]. rewrite Hm.
  unfold mbind at 1, M_bind at 1, bind at 1. rewrite setdefault_eq, Hk, state_eta.
  unfold zip_file_info, list_append, getattr. cbn [Attr.file_size Attr.date_time Attr.filename].
  run_m. now rewrite Hk.
Qed.

(** A truthy predicate whose display name is already the key of a list of
    name matches: the list is subscripted with ['files']. *)
Lemma callback_truthy_clash it data cb rest rfo st files :
  truthy (cb_call cb data) = true ->
  results st !! _get_callback_name cb = Some (NameEntry files) ->
  _handle_callback_matching it (tag_of it) data (cb :: rest) rfo st =
  (Raise TypeError, add_events [EvCall (_get_callback_name cb) data] st).
Proof.
  intros Htrue Hk. cbn [_handle_callback_matching].
  unfold mbind at 1, M_bind at 1, bind at 1. unfold emit at 1.
  rewrite Htrue.
  unfold mbind at 1, M_bind at 1, bind at 1. rewrite setdefault_eq.
  unfold mbind at 1, M_bind at 1, bind at 1. rewrite tagged_file_info.
  unfold files_append. unfold mbind at 1, M_bind at 1, bind at 1.
  unfold mbind at 1, M_bind at 1, bind at 1. rewrite getitem_eq.
  cbn [results found_set trace disk]. rewrite Hk. cbn iota. rewrite Hk. reflexivity.
Qed.

Definition results_rel (P : gmap string entry -> Prop) (st st' : state) : Prop :=
  P (results st) -> P (results st').

Definition results_exn (P : gmap string entry -> Prop) (E : exn -> Prop)
    (e : exn) (st st' : state) : Prop :=
  P (results st) -> E e.

(** A property [P] of [results] that the two kinds of update keep is kept
    by the whole traversal, which raises only exceptions in [E]. *)
Section ResultsInvariant.
Context (P : gmap string entry -> Prop) (E : exn -> Prop).
Context (q : query) (good : item -> bool).
Hypothesis P_callback : nonempty (callback_functions q) = true ->
  forall it data cb r,
    good it = true -> cb ∈ or_nil (callback_functions q) ->
    truthy (cb_call cb data) = true -> P r ->
    match r !! _get_callback_name cb with
    | Some (NameEntry _) => E TypeError
    | _ => P (<[_get_callback_name cb :=
                  CallbackEntry (callback_files (r !! _get_callback_name cb)
                                   ++ [match_record it data])
                    (Some (cb_call cb data))]> r)
    end.
Hypothesis P_name : nonempty (file_names q) = true ->
  forall it data r,
    good it = true -> is_directory_member (tag_of it) it = false ->
    name_matches (or_nil (file_names q)) (Attr.filename it) (case_sensitive q) = true ->
    P r ->
    match it with
    | SevenZItem _ => E AttributeError
    | ZipItem z =>
        match r !! zi_filename z with
        | Some (CallbackEntry _ _) => E AttributeError
        | _ => P (<[zi_filename z :=
                      NameEntry (name_files (r !! zi_filename z)
                                   ++ [match_record it data])]> r)
        end
    end.

Lemma results_rel_callbacks it data cbs :
  nonempty (callback_functions q) = true ->
  good it = true ->
  (forall cb, cb ∈ cbs -> cb ∈ or_nil (callback_functions q)) ->
  rel (results_rel P) (results_exn P E)
    (_handle_callback_matching it (tag_of it) data cbs (return_first_only q)).
Proof.
  intros Hc Hg. induction cbs as [|cb rest IH]; intros Hsub st.
  - exact (fun H => H).
  - assert (Hin : cb ∈ or_nil (callback_functions q)) by (apply Hsub; left).
    destruct (truthy (cb_call cb data)) eqn:Ht.
    + pose proof (fun HP => P_callback Hc it data cb (results st) Hg Hin Ht HP) as Hstep.
      destruct (results st !! _get_callback_name cb) as [[files|files cr]|] eqn:Hk.
      * rewrite (callback_truthy_clash it data cb rest _ st files Ht Hk). exact Hstep.
      * rewrite callback_truthy_step by (try exact Ht; intros ?; rewrite Hk; discriminate).
        rewrite Hk. exact Hstep.
      * rewrite callback_truthy_step by (try exact Ht; intros ?; rewrite Hk; discriminate).
        rewrite Hk. exact Hstep.
    + rewrite callback_falsy_step by exact Ht.
      assert (Hsub' : forall c, c ∈ rest -> c ∈ or_nil (callback_functions q))
        by (intros c Hc'; apply Hsub; now right).
      exact (IH Hsub' _).
Qed.

Lemma results_rel_names it data :
  nonempty (file_names q) = true ->
  good it = true -> is_directory_member (tag_of it) it = false ->
  rel (results_rel P) (results_exn P E)
    (_handle_name_matching it data (or_nil (file_names q)) (case_sensitive q)
       (return_first_only q)).
Proof.
  intros Hn Hg Hdir st.
  destruct (name_matches (or_nil (file_names q)) (Attr.filename it) (case_sensitive q))
    eqn:Hm; [|rewrite name_matching_miss by exact Hm; exact (fun H => H)].
  pose proof (fun HP => P_name Hn it data (results st) Hg Hdir Hm HP) as Hstep.
  destruct it as [z|f]; cbn [Attr.filename] in Hm.
  - destruct (results st !! zi_filename z) as [[files|files cr]|] eqn:Hk.
    + rewrite name_matching_zip_hit by (try exact Hm; intros ? ?; rewrite Hk; discriminate).
      rewrite Hk. exact Hstep.
    + rewrite (name_matching_zip_clash z data _ _ _ st files cr Hm Hk). exact Hstep.
    + rewrite name_matching_zip_hit by (try exact Hm; intros ? ?; rewrite Hk; discriminate).
      rewrite Hk. exact Hstep.
  - rewrite name_matching_7z_hit by exact Hm. exact Hstep.
Qed.

Lemma results_rel_with_open b (body : M unit) :
  rel (results_rel P) (results_exn P E) body ->
  rel (results_rel P) (results_exn P E) (with_open b body).
Proof.
  intros Hb st. rewrite with_open_eq.
  specialize (Hb (add_events [EvOpen (blob_data b)] st)).
  destruct (body _) as [[[]|e] st']; exact Hb.
Qed.

Lemma results_rel_read_member it :
  rel (results_rel P) (results_exn P E) (read_member (tag_of it) it).
Proof.
  intros st. rewrite read_member_eq.
  destruct (is_directory_member _ _); exact (fun H => H).
Qed.

Lemma results_rel_extraction it data :
  rel (results_rel P) (results_exn P E)
    (_handle_file_extraction it (extract_file_to_path q) data).
Proof.
  intros st. unfold _handle_file_extraction.
  destruct (extract_file_to_path q) as [dir|]; [|exact (fun H => H)].
  destruct (PyStr.truthy dir); exact (fun H => H).
Qed.

Lemma results_rel_search_archive_content b :
  members_ok good b = true ->
  searchable b = true \/ E UnknownArchiveType ->
  rel (results_rel P) (results_exn P E) (_search_archive_content b q).
Proof.
  intros Hok Htop.
  assert (Hrefl : forall st, results_rel P st st) by (intros st H; exact H).
  assert (Htrans : forall s1 s2 s3,
             results_rel P s1 s2 -> results_rel P s2 s3 -> results_rel P s1 s3)
    by (intros s1 s2 s3 H1 H2 H; exact (H2 (H1 H))).
  assert (HX : forall e s1 s2 s3,
             results_rel P s1 s2 -> results_exn P E e s2 s3 -> results_exn P E e s1 s3)
    by (intros e s1 s2 s3 H1 H2 H; exact (H2 (H1 H))).
  assert (Hmime : forall d, rel (results_rel P) (results_exn P E) (emit (EvMime d)))
    by (intros d st H; exact H).
  destruct Htop as [Htop|Hunknown].
  - apply (rel_search_archive_content_nested (results_rel P) (results_exn P E) q good
             Hrefl Htrans HX Hmime results_rel_with_open
             (fun it _ => results_rel_read_member it)); try assumption.
    + intros Hc it data Hg _. now apply results_rel_callbacks.
    + intros _ it data _ _. apply results_rel_extraction.
    + intros Hn it data Hg Hdir. now apply results_rel_names.
  - apply (rel_search_archive_content (results_rel P) (results_exn P E) q good
             Hrefl Htrans HX Hmime results_rel_with_open
             (fun it _ => results_rel_read_member it)); try assumption.
    + intros Hc it data Hg _. now apply results_rel_callbacks.
    + intros _ it data _ _. apply results_rel_extraction.
    + intros Hn it data Hg Hdir. now apply results_rel_names.
    + intros st st' _ _. exact Hunknown.
Qed.

Theorem results_invariant b st :
  members_ok good b = true ->
  searchable b = true \/ E UnknownArchiveType ->
  P (results st) ->
  match _search_archive_content b q st with
  | (Return _, st') => P (results st')
  | (Raise e, _) => E e
  end.
Proof.
  intros Hok Htop HP.
  pose proof (results_rel_search_archive_content b Hok Htop st) as Hrel.
  destruct (_search_archive_content b q st) as [[a|e] st']; now apply Hrel.
Qed.
End ResultsInvariant.

(** *** Every entry of a result set holds a match *)

Lemma entry_truthy_append files info : entry_truthy (NameEntry (files ++ [info])) = true.
Proof. now destruct files. Qed.

(** X10. [return_empty_list_per_file_name] has no effect: a key is only
    created right before a record is stored under it, so when the
    traversal returns every value in [results] is truthy, the final
    filter keeps everything, and both settings of the flag give the same
    outcome and the same final state on every input. *)
Theorem return_empty_flag_has_no_effect :
  forall fo names cs rfo rc cbs ex on_disk,
    search_file_in_archive fo names cs rfo true rc cbs ex on_disk =
    search_file_in_archive fo names cs rfo false rc cbs ex on_disk.
Proof.
  intros fo names cs rfo rc cbs ex on_disk.
  assert (H : forall q,
             match _search_archive_content fo q (init_state on_disk) with
             | (Return _, st') => map_Forall (fun _ e => entry_truthy e = true) (results st')
             | (Raise _, _) => True
             end).
  { intros q.
    apply (results_invariant (map_Forall (fun _ e => entry_truthy e = true))
             (fun _ => True) q (fun _ => true)).
    - intros _ it data cb r _ _ _ HP.
      destruct (r !! _get_callback_name cb) as [[?|? ?]|]; [exact I| |];
        now apply map_Forall_insert_2.
    - intros _ it data r _ _ _ HP. destruct it as [z|f]; [|exact I].
      destruct (r !! zi_filename z) as [[?|? ?]|]; [|exact I|];
        (apply map_Forall_insert_2; [apply entry_truthy_append | exact HP]).
    - apply members_ok_always.
    - right. exact I.
    - apply map_Forall_empty. }
  unfold search_file_in_archive.
  destruct names, cbs; try reflexivity;
    unfold mbind, M_bind, bind;
    match goal with
    | |- context [_search_archive_content fo ?q _] => specialize (H q)
    end;
    destruct (_search_archive_content _ _ _) as [[[]|e] st']; try reflexivity;
    cbn; (rewrite map_filter_id; [reflexivity|]);
    intros i x Hi; exact (H i x Hi).
Qed.

(** *** When a search returns *)





